(** * Catalog search service: dual-mode search and ranking

    A shallow embedding of [app/catalog.py] (class [CatalogService] and the
    module-level scoring helpers), of the functions of [app/main.py] behind
    the chat and the header-search endpoints with the models of
    [app/models.py], and of [spec_blob] and the retry helpers of
    [scripts/seed_elasticsearch.py].

    Modelling conventions.
    - Python [str] is [string]; the text functions ([lower], [split],
      [strip], [in]) are given on ASCII text.
    - Python [float] is idealised by exact rationals [Q]: the formulas are
      the source's, the binary64 rounding of each single operation is not
      modelled, and [round(x, 4)] is rounding half to even at four decimals
      of the exact sum.  A score computed here can therefore differ from the
      program's in its last decimal where the exact sum lies on or next to a
      decimal tie (quantity 10, price 0, coverage 0 at raw = top = 1: 0.8000
      here, 0.8001 in the program).  The general statements below are symbolic in
      the score, or are orderings and bounds; the scores shown in the closed
      examples are away from such ties.
    - Python [int] is [Z].
    - A product document is a [dict]; the keys the service reads are the
      fields of a record, each of them optional, so that [doc["k"]] (raises
      [KeyError] when the key is absent) and [doc.get("k", default)] are both
      written as in the source.  A value that is present has the type the
      result model expects (text, number, list of text).
    - A Python [set] of strings is a [gset string].
    - Raising is the [Err] result of the [except] type. *)

From Stdlib Require Import Ascii String QArith Qround Qabs Qminmax Lqa.
From Stdlib Require Import Sorting.Sorted Sorting.Permutation.
From stdpp Require Import gmap strings list pretty.

Local Open Scope string_scope.

(** ** Results and exceptions *)

Inductive exn : Type :=
| KeyError (key : string)
| TransportError (message : string).

(** [str(exc)], used by the f-string of [CatalogService.search]. *)
Definition exn_str (e : exn) : string :=
  match e with
  | KeyError k => "'" +:+ k +:+ "'"
  | TransportError m => m
  end.

Inductive except (A : Type) : Type :=
| Ok (a : A)
| Err (e : exn).
Arguments Ok {A} a.
Arguments Err {A} e.

#[global] Instance except_ret : MRet except := λ A a, Ok a.

#[global] Instance except_bind : MBind except := λ A B k m,
  match m with
  | Ok a => k a
  | Err e => Err e
  end.

(** [doc["key"]] on an optional field. *)
Definition getitem {A} (key : string) (field : option A) : except A :=
  match field with
  | Some a => Ok a
  | None => Err (KeyError key)
  end.

(** ** Text primitives *)

Module Text.

(** [c.lower()] on one ASCII character. *)
Definition lower_ascii (c : ascii) : ascii :=
  let n := nat_of_ascii c in
  if (65 <=? n)%nat && (n <=? 90)%nat then ascii_of_nat (n + 32) else c.

(** [s.lower()] *)
Fixpoint lower (s : string) : string :=
  match s with
  | EmptyString => EmptyString
  | String c s' => String (lower_ascii c) (lower s')
  end.

(** The characters [str.split()] treats as separators: tab, line feed,
    vertical tab, form feed, carriage return, the four separators
    0x1c-0x1f, and space. *)
Definition is_space (c : ascii) : bool :=
  let n := nat_of_ascii c in
  ((9 <=? n)%nat && (n <=? 13)%nat) || ((28 <=? n)%nat && (n <=? 32)%nat).

(** [s.split()]: maximal runs of non-space characters, in order.
    [cur] is the word being read, reversed. *)
Fixpoint split_aux (s : string) (cur : list ascii) : list string :=
  match s with
  | EmptyString =>
      match cur with
      | [] => []
      | _ => [string_of_list_ascii (rev cur)]
      end
  | String c s' =>
      if is_space c then
        match cur with
        | [] => split_aux s' []
        | _ => string_of_list_ascii (rev cur) :: split_aux s' []
        end
      else split_aux s' (c :: cur)
  end.

Definition split (s : string) : list string := split_aux s [].

(** Membership of a character in the argument of [strip]. *)
Fixpoint mem_char (c : ascii) (chars : string) : bool :=
  match chars with
  | EmptyString => false
  | String d chars' => if Ascii.eqb c d then true else mem_char c chars'
  end.

(** [s.lstrip(chars)] *)
Fixpoint lstrip (chars : string) (s : string) : string :=
  match s with
  | EmptyString => EmptyString
  | String c s' => if mem_char c chars then lstrip chars s' else s
  end.

(** [s.rstrip(chars)] *)
Fixpoint rstrip (chars : string) (s : string) : string :=
  match s with
  | EmptyString => EmptyString
  | String c s' =>
      match rstrip chars s' with
      | EmptyString => if mem_char c chars then EmptyString else String c EmptyString
      | r => String c r
      end
  end.

(** [s.strip(chars)]: removes the characters of [chars] from both ends. *)
Definition strip (chars : string) (s : string) : string :=
  rstrip chars (lstrip chars s).

(** [needle in haystack] *)
Fixpoint contains (needle haystack : string) : bool :=
  String.prefix needle haystack ||
  match haystack with
  | EmptyString => false
  | String _ h' => contains needle h'
  end.

(** [sep.join(parts)] *)
Fixpoint join (sep : string) (parts : list string) : string :=
  match parts with
  | [] => ""
  | [p] => p
  | p :: ps => p +:+ sep +:+ join sep ps
  end.

End Text.

(** ** Tokenisers *)

(** The set comprehension shared, word for word, by [_fallback_search] and
    [_keyword_coverage]:
    [{token.strip(",.?!") for token in query.lower().split()
      if len(token) > 2 and token.strip(",.?!") not in stop_words}].
    The length test reads the token before it is stripped. *)
Definition token_set (stop_words : gset string) (query : string) : gset string :=
  list_to_set
    (Text.strip ",.?!" <$>
       filter (λ token, (2 < String.length token)%nat
                        ∧ Text.strip ",.?!" token ∉ stop_words)
              (Text.split (Text.lower query))).

(** [stop_words] of [CatalogService._fallback_search]. *)
Definition fallback_stop_words : gset string :=
  list_to_set ["find"; "need"; "with"; "that"; "this"; "for"; "the"; "and";
               "top"; "best"; "under"; "cheapest"; "stock"; "in-stock"].

(** [stop_words] of [_keyword_coverage]. *)
Definition coverage_stop_words : gset string :=
  list_to_set ["find"; "need"; "with"; "that"; "this"; "for"; "the"; "and";
               "top"; "best"; "under"; "in"; "stock"].

Definition fallback_query_tokens (query : string) : gset string :=
  token_set fallback_stop_words query.

Definition coverage_query_tokens (query : string) : gset string :=
  token_set coverage_stop_words query.

(** ** Data model ([app/models.py] and the catalog documents) *)

Inductive sort_preference_t : Type := relevance | price_low | stock_high.

(** [class QueryIntent(BaseModel)] *)
Record QueryIntent : Type := mkQueryIntent {
  keywords : string;
  limit : Z;
  in_stock_only : bool;
  min_quantity : option Z;
  max_unit_price : option Q;
  sort_preference : sort_preference_t;
}.

(** The [Field] constraints pydantic checks when a [QueryIntent] is built:
    [limit: ge=1, le=20], [min_quantity: ge=0], [max_unit_price: gt=0]. *)
Definition intent_valid (intent : QueryIntent) : Prop :=
  (1 ≤ limit intent ≤ 20)%Z
  ∧ (∀ m, min_quantity intent = Some m → (0 ≤ m)%Z)
  ∧ (∀ p, max_unit_price intent = Some p → (0 < p)%Q).

(** The value stored under ["key_specs"]: a JSON object, whose items keep
    their insertion order and whose values are given as the text that
    [f"{value}"] prints, or any other JSON value. *)
Inductive specs_value : Type :=
| SpecsDict (items : list (string * string))
| SpecsNotDict.

(** A catalog document, a [dict[str, Any]]: [None] is an absent key. *)
Record doc_t : Type := mkDoc {
  d_id : option string;
  d_manufacturer : option string;
  d_manufacturer_part_number : option string;
  d_name : option string;
  d_description : option string;
  d_category : option string;
  d_unit_price : option Q;
  d_quantity_available : option Z;
  d_tags : option (list string);
  d_use_cases : option (list string);
  d_key_specs : option specs_value;
  d_product_url : option string;
  d_datasheet_url : option string;
  d_spec_blob : option string;
}.

(** The empty dictionary [{}]. *)
Definition empty_doc : doc_t :=
  mkDoc None None None None None None None None None None None None None None.

(** [doc_copy["spec_blob"] = blob] *)
Definition set_spec_blob (blob : string) (doc : doc_t) : doc_t :=
  mkDoc (d_id doc) (d_manufacturer doc) (d_manufacturer_part_number doc)
        (d_name doc) (d_description doc) (d_category doc) (d_unit_price doc)
        (d_quantity_available doc) (d_tags doc) (d_use_cases doc)
        (d_key_specs doc) (d_product_url doc) (d_datasheet_url doc)
        (Some blob).

(** [class ProductResult(BaseModel)] *)
Record ProductResult : Type := mkProductResult {
  id : string;
  manufacturer : string;
  manufacturer_part_number : string;
  name : string;
  description : string;
  category : string;
  unit_price : Q;
  quantity_available : Z;
  product_url : string;
  datasheet_url : string;
  recommendation_score : Q;
  fit_reason : string;
}.

(** ** Number helpers *)

Definition Qltb (x y : Q) : bool :=
  match (x ?= y)%Q with Lt => true | _ => false end.

(** The two-argument [max(a, b)]: [b] replaces [a] only when [b > a]. *)
Definition py_max (a b : Q) : Q := if Qltb a b then b else a.

(** The two-argument [min(a, b)]: [b] replaces [a] only when [b < a]. *)
Definition py_min (a b : Q) : Q := if Qltb b a then b else a.

(** [max(iterable)] over a non-empty sequence whose first item is [x]. *)
Definition py_max_seq (x : Q) (xs : list Q) : Q := fold_left py_max xs x.

(** Nearest integer, ties to the even one. *)
Definition round_half_even (x : Q) : Z :=
  let f := Qfloor x in
  match (x - inject_Z f ?= 1 # 2)%Q with
  | Lt => f
  | Gt => (f + 1)%Z
  | Eq => if Z.even f then f else (f + 1)%Z
  end.

(** [round(x, 4)], idealised: half-even rounding of the exact rational, where
    the program rounds a binary64 value. *)
Definition round4 (x : Q) : Q := round_half_even (x * 10000) # 10000.

(** [f"{x:.2f}"], idealised in the same way: two decimals of the exact
    rational.  Only the text of [fit_reason] depends on it. *)
Definition format_2f (x : Q) : string :=
  let n := round_half_even (Qabs x * 100) in
  let frac := (n mod 100)%Z in
  (if Qltb x 0 then "-" else "")
  +:+ pretty (n / 100)%Z +:+ "."
  +:+ (if (frac <? 10)%Z then "0" else "") +:+ pretty frac.

(** ** Scoring model *)

(** [_spec_blob_from_doc] of [app/catalog.py]. *)
Definition _spec_blob_from_doc (doc : doc_t) : string :=
  let specs := default (SpecsDict []) (d_key_specs doc) in
  match specs with
  | SpecsNotDict => ""
  | SpecsDict items =>
      Text.join " " ((λ kv, fst kv +:+ " " +:+ snd kv) <$> items)
  end.

(** [spec_blob] of [scripts/seed_elasticsearch.py]. *)
Definition spec_blob (doc : doc_t) : string :=
  let specs := default (SpecsDict []) (d_key_specs doc) in
  match specs with
  | SpecsNotDict => ""
  | SpecsDict items =>
      Text.join " " ((λ kv, fst kv +:+ " " +:+ snd kv) <$> items)
  end.

(** [_recommendation_score], with the source's formula evaluated in exact
    rationals. *)
Definition _recommendation_score
    (raw_score top_score : Q) (doc : doc_t) (coverage : Q) : Q :=
  let relevance := (raw_score / py_max top_score (1 # 10000))%Q in
  let stock :=
    py_min (inject_Z (default 0%Z (d_quantity_available doc)) / 10000)%Q 1%Q in
  let price := default 0%Q (d_unit_price doc) in
  let price_score := (1 / (1 + py_max price 0))%Q in
  round4 ((78 # 100) * relevance + (15 # 100) * coverage
          + (5 # 100) * stock + (2 # 100) * price_score)%Q.

(** [_build_reason] *)
Definition _build_reason (doc : doc_t) (recommendation_score coverage : Q) : string :=
  "Score " +:+ format_2f recommendation_score
  +:+ " with keyword coverage " +:+ format_2f coverage +:+ ", "
  +:+ "stock (" +:+ pretty (default 0%Z (d_quantity_available doc)) +:+ " pcs), and price ($"
  +:+ format_2f (default 0%Q (d_unit_price doc)) +:+ ").".

(** The lowercased text both [_keyword_coverage] and [_fallback_search]
    match tokens against, given the six looked-up parts. *)
Definition haystack_of
    (manufacturer part_number name description : string)
    (tags use_cases : list string) : string :=
  Text.lower (Text.join " " [manufacturer; part_number; name; description;
                             Text.join " " tags; Text.join " " use_cases]).

(** [sum(token in haystack for token in query_tokens)] *)
Definition count_matches (query_tokens : gset string) (haystack : string) : nat :=
  size (filter (λ token, Text.contains token haystack = true) query_tokens).

(** [_keyword_coverage] *)
Definition _keyword_coverage (query : string) (doc : doc_t) : Q :=
  let query_tokens := coverage_query_tokens query in
  if decide (query_tokens = ∅) then 0%Q
  else
    let haystack :=
      haystack_of (default "" (d_manufacturer doc))
                  (default "" (d_manufacturer_part_number doc))
                  (default "" (d_name doc))
                  (default "" (d_description doc))
                  (default [] (d_tags doc))
                  (default [] (d_use_cases doc)) in
    let matched := count_matches query_tokens haystack in
    (inject_Z (Z.of_nat matched) / inject_Z (Z.of_nat (size query_tokens)))%Q.

(** ** The remote engine, seen from the client *)

(** One entry of [response["hits"]["hits"]].  [h_score] is
    [hit.get("_score")]: [None] when the key is absent or null.
    [h_source] is the value under ["_source"], when present. *)
Record hit_t : Type := mkHit {
  h_score : option Q;
  h_source : option doc_t;
}.

(** A search response; [resp_hits] is
    [response.get("hits", {}).get("hits", [])]. *)
Record es_response : Type := mkResponse {
  resp_hits : list hit_t;
}.

Inductive range_clause : Type :=
| QuantityGt (bound : Z)
| QuantityGte (bound : Z)
| UnitPriceLte (bound : Q).

Inductive sort_clause : Type :=
| ByScore
| ByUnitPriceAsc
| ByQuantityDesc.

(** The keyword arguments of [client.search(...)]. *)
Record search_request : Type := mkRequest {
  rq_index : string;
  rq_multi_match_query : string;
  rq_fields : list string;
  rq_fuzziness : string;
  rq_filter : list range_clause;
  rq_size : Z;
  rq_sort : list sort_clause;
}.

(** One action of [helpers.bulk]. *)
Record bulk_action : Type := mkAction {
  a_index : string;
  a_id : string;
  a_source : doc_t;
}.

(** A connected [Elasticsearch] client: what each call the service makes
    answers, or the exception it raises. *)
Record es_client : Type := mkClient {
  c_ping : except bool;
  c_indices_exists : string → except bool;
  c_indices_create : string → except unit;
  c_count : string → except Z;
  c_bulk : list bulk_action → except unit;
  c_search : search_request → except es_response;
}.

(** ** The service *)

(** The attributes of a [CatalogService] that its methods read or write. *)
Record CatalogService : Type := mkService {
  es_index : string;
  connect_attempts : Z;
  _client : option es_client;
  _mode : string;
  _fallback_docs : list doc_t;
}.

(** [CatalogService.__init__], given the index name, the attempt count and
    the documents [_load_seed_catalog] read. *)
Definition __init__ (index : string) (attempts : Z) (docs : list doc_t) : CatalogService :=
  mkService index attempts None "fallback" docs.

(** The [mode] property. *)
Definition mode (self : CatalogService) : string := _mode self.

Definition set_mode (m : string) (self : CatalogService) : CatalogService :=
  mkService (es_index self) (connect_attempts self) (_client self) m
            (_fallback_docs self).

Definition set_client (c : es_client) (self : CatalogService) : CatalogService :=
  mkService (es_index self) (connect_attempts self) (Some c) (_mode self)
            (_fallback_docs self).

(** [_connect_with_retry].  [attempt k] is what constructing a client in the
    iteration number [k] gives: [Err] when the constructor raises, a client
    otherwise; a client whose [ping()] raises or answers [False] is
    dropped. *)
Fixpoint connect_loop (attempt : nat → except es_client) (k remaining : nat)
    : option es_client :=
  match remaining with
  | O => None
  | S remaining' =>
      match attempt k with
      | Ok client =>
          match c_ping client with
          | Ok true => Some client
          | _ => connect_loop attempt (S k) remaining'
          end
      | Err _ => connect_loop attempt (S k) remaining'
      end
  end.

Definition _connect_with_retry (attempt : nat → except es_client) (max_attempts : Z)
    : option es_client :=
  connect_loop attempt 0 (Z.to_nat max_attempts).

(** [_ensure_index] *)
Definition _ensure_index (client : es_client) (index : string) : except unit :=
  present ← c_indices_exists client index;
  if (present : bool) then mret tt else c_indices_create client index.

(** The loop of [_seed_if_empty] that builds [actions]. *)
Fixpoint seed_actions (index : string) (docs : list doc_t) : except (list bulk_action) :=
  match docs with
  | [] => mret []
  | doc :: docs' =>
      let doc_copy := set_spec_blob (_spec_blob_from_doc doc) doc in
      doc_id ← getitem "id" (d_id doc_copy);
      rest ← seed_actions index docs';
      mret (mkAction index doc_id doc_copy :: rest)
  end.

(** [_seed_if_empty] *)
Definition _seed_if_empty (client : es_client) (index : string) (docs : list doc_t)
    : except unit :=
  count ← c_count client index;
  if (0 <? count)%Z then mret tt
  else
    actions ← seed_actions index docs;
    match actions with
    | [] => mret tt
    | _ => c_bulk client actions
    end.

(** [initialize]: the service afterwards, and the returned warning or the
    exception that left the method. *)
Definition initialize (attempt : nat → except es_client) (self : CatalogService)
    : CatalogService * except (option string) :=
  match _connect_with_retry attempt (connect_attempts self) with
  | None =>
      (set_mode "fallback" self,
       Ok (Some "Elasticsearch is unavailable; using local fallback catalog."))
  | Some client =>
      let self1 := set_client client self in
      match _ensure_index client (es_index self1) with
      | Err e => (self1, Err e)
      | Ok _ =>
          match _seed_if_empty client (es_index self1) (_fallback_docs self1) with
          | Err e => (self1, Err e)
          | Ok _ => (set_mode "elasticsearch" self1, Ok None)
          end
      end
  end.

(** *** Ranking shared by the two search paths *)

(** [results.sort(key=lambda r: r.recommendation_score, reverse=True)]:
    a stable sort, so results of equal score keep their order. *)
Fixpoint insert_desc (r : ProductResult) (sorted : list ProductResult)
    : list ProductResult :=
  match sorted with
  | [] => [r]
  | r' :: rest =>
      if Qltb (recommendation_score r) (recommendation_score r')
      then r' :: insert_desc r rest
      else r :: r' :: rest
  end.

Definition sort_by_score_desc (results : list ProductResult) : list ProductResult :=
  foldr insert_desc [] results.

(** [results[:n]] *)
Definition slice_to (n : Z) (results : list ProductResult) : list ProductResult :=
  if (0 <=? n)%Z then take (Z.to_nat n) results
  else take (length results - Z.to_nat (- n)) results.

(** The [ProductResult(...)] call both paths make for a document. *)
Definition make_result (doc : doc_t) (score : Q) (reason : string)
    : except ProductResult :=
  r_id ← getitem "id" (d_id doc);
  r_manufacturer ← getitem "manufacturer" (d_manufacturer doc);
  r_part ← getitem "manufacturer_part_number" (d_manufacturer_part_number doc);
  r_name ← getitem "name" (d_name doc);
  r_description ← getitem "description" (d_description doc);
  r_category ← getitem "category" (d_category doc);
  r_price ← getitem "unit_price" (d_unit_price doc);
  r_quantity ← getitem "quantity_available" (d_quantity_available doc);
  r_product_url ← getitem "product_url" (d_product_url doc);
  r_datasheet_url ← getitem "datasheet_url" (d_datasheet_url doc);
  mret (mkProductResult r_id r_manufacturer r_part r_name r_description
          r_category r_price r_quantity r_product_url r_datasheet_url
          score reason).

(** *** Remote search path *)

(** The request [_search_elasticsearch] sends. *)
Definition build_request (index : string) (intent : QueryIntent) : search_request :=
  let filters0 : list range_clause := [] in
  let filters1 :=
    if in_stock_only intent then (filters0 ++ [QuantityGt 0])%list else filters0 in
  let filters2 :=
    match min_quantity intent with
    | Some m => (filters1 ++ [QuantityGte m])%list
    | None => filters1
    end in
  let filters3 :=
    match max_unit_price intent with
    | Some p => (filters2 ++ [UnitPriceLte p])%list
    | None => filters2
    end in
  let sort :=
    match sort_preference intent with
    | price_low => [ByUnitPriceAsc; ByScore]
    | stock_high => [ByQuantityDesc; ByScore]
    | relevance => [ByScore]
    end in
  mkRequest index (keywords intent)
    ["name^4"; "description^3"; "category^2"; "manufacturer^2"; "tags^2";
     "use_cases^2"; "spec_blob"]
    "AUTO" filters3 (limit intent) sort.

(** [hit.get("_score") or fallback]: [None] and [0] are falsy. *)
Definition score_or (fallback : Q) (hit : hit_t) : Q :=
  match h_score hit with
  | Some s => if Qeq_bool s 0 then fallback else s
  | None => fallback
  end.

(** [top_score = max((hit.get("_score") or 1.0) for hit in hits)] *)
Definition top_score_of (first : hit_t) (others : list hit_t) : Q :=
  py_max_seq (score_or 1 first) (score_or 1 <$> others).

(** The body of the loop over [hits]. *)
Definition hit_result (intent : QueryIntent) (top_score : Q) (hit : hit_t)
    : except ProductResult :=
  let doc := default empty_doc (h_source hit) in
  let score := score_or 0 hit in
  let coverage := _keyword_coverage (keywords intent) doc in
  let recommendation_score := _recommendation_score score top_score doc coverage in
  let reason := _build_reason doc recommendation_score coverage in
  make_result doc recommendation_score reason.

Fixpoint map_hits (intent : QueryIntent) (top_score : Q) (hits : list hit_t)
    : except (list ProductResult) :=
  match hits with
  | [] => mret []
  | hit :: hits' =>
      r ← hit_result intent top_score hit;
      rs ← map_hits intent top_score hits';
      mret (r :: rs)
  end.

(** [_search_elasticsearch] *)
Definition _search_elasticsearch (client : es_client) (index : string)
    (intent : QueryIntent) : except (list ProductResult) :=
  response ← c_search client (build_request index intent);
  match resp_hits response with
  | [] => mret []
  | first :: others =>
      let top_score := top_score_of first others in
      results ← map_hits intent top_score (first :: others);
      mret (sort_by_score_desc results)
  end.

(** *** Fallback search path *)

(** The body of the loop over [self._fallback_docs]: [Ok None] is
    [continue], [Ok (Some r)] is [results.append(r)]. *)
Definition fallback_candidate (intent : QueryIntent) (query_tokens : gset string)
    (doc : doc_t) : except (option ProductResult) :=
  m ← getitem "manufacturer" (d_manufacturer doc);
  pn ← getitem "manufacturer_part_number" (d_manufacturer_part_number doc);
  nm ← getitem "name" (d_name doc);
  ds ← getitem "description" (d_description doc);
  let haystack :=
    haystack_of m pn nm ds (default [] (d_tags doc)) (default [] (d_use_cases doc)) in
  let match_score := count_matches query_tokens haystack in
  if bool_decide (query_tokens ≠ ∅) && (match_score =? 0)%nat then mret None
  else
    skip_stock ←
      (if in_stock_only intent
       then q ← getitem "quantity_available" (d_quantity_available doc);
            mret (q <=? 0)%Z
       else mret false);
    if (skip_stock : bool) then mret None
    else
      skip_min ←
        (match min_quantity intent with
         | Some mq => q ← getitem "quantity_available" (d_quantity_available doc);
                      mret (q <? mq)%Z
         | None => mret false
         end);
      if (skip_min : bool) then mret None
      else
        skip_price ←
          (match max_unit_price intent with
           | Some mp => p ← getitem "unit_price" (d_unit_price doc);
                        mret (Qltb mp p)
           | None => mret false
           end);
        if (skip_price : bool) then mret None
        else
          let coverage := _keyword_coverage (keywords intent) doc in
          let recommendation_score := _recommendation_score 1 1 doc coverage in
          r ← make_result doc recommendation_score
                (_build_reason doc recommendation_score coverage);
          mret (Some r).

Fixpoint fallback_loop (intent : QueryIntent) (query_tokens : gset string)
    (docs : list doc_t) : except (list ProductResult) :=
  match docs with
  | [] => mret []
  | doc :: docs' =>
      c ← fallback_candidate intent query_tokens doc;
      rs ← fallback_loop intent query_tokens docs';
      mret (match c with Some r => r :: rs | None => rs end)
  end.

(** [_fallback_search] *)
Definition _fallback_search (self : CatalogService) (intent : QueryIntent)
    : except (list ProductResult) :=
  let query_tokens := fallback_query_tokens (keywords intent) in
  results ← fallback_loop intent query_tokens (_fallback_docs self);
  mret (slice_to (limit intent) (sort_by_score_desc results)).

(** *** Dispatch *)

(** [search]: the service afterwards, and the returned pair or the exception
    that left the method.  [except Exception] catches every exception the
    remote path raises. *)
Definition search (self : CatalogService) (intent : QueryIntent)
    : CatalogService * except (list ProductResult * option string) :=
  match bool_decide (_mode self ≠ "elasticsearch"), _client self with
  | false, Some client =>
      match _search_elasticsearch client (es_index self) intent with
      | Ok results => (self, Ok (results, None))
      | Err exc =>
          (self,
           results ← _fallback_search self intent;
           mret (results,
                 Some ("Elasticsearch query failed (" +:+ exn_str exc
                       +:+ "); using fallback data.")))
      end
  | _, _ =>
      (self,
       results ← _fallback_search self intent;
       mret (results, Some "Results are from fallback data, not Elasticsearch."))
  end.

(** * Predicates, sample data and reference readings *)

(** ** Documents that carry every key the result constructor reads *)

Definition doc_complete (doc : doc_t) : Prop :=
  is_Some (d_id doc) ∧ is_Some (d_manufacturer doc)
  ∧ is_Some (d_manufacturer_part_number doc) ∧ is_Some (d_name doc)
  ∧ is_Some (d_description doc) ∧ is_Some (d_category doc)
  ∧ is_Some (d_unit_price doc) ∧ is_Some (d_quantity_available doc)
  ∧ is_Some (d_product_url doc) ∧ is_Some (d_datasheet_url doc).

(** The service states a process can be in: built by the constructor, then
    any sequence of [initialize] and [search] calls. *)
Inductive reachable : CatalogService → Prop :=
| reach_init index attempts docs :
    reachable (__init__ index attempts docs)
| reach_initialize attempt self :
    reachable self → reachable (fst (initialize attempt self))
| reach_search self intent :
    reachable self → reachable (fst (search self intent)).

(** Sample data used by the closed examples below. *)
Module Sample.

Definition product (ident title : string) (price : Q) (quantity : Z) : doc_t :=
  mkDoc (Some ident) (Some "Acme") (Some "PN-1") (Some title)
        (Some "bench part") (Some "Parts") (Some price) (Some quantity)
        (Some ["usb"; "power"]) (Some ["lab"])
        (Some (SpecsDict [("series", "X"); ("package", "SMD")]))
        (Some "https://example.test/p") (Some "https://example.test/d") None.

Definition catalog : list doc_t :=
  [product "rpi-psu" "Raspberry Pi Official USB-C 27W PSU" 12 500;
   product "res-1" "Resistor 10k" (1 # 100) 0;
   product "res-2" "Resistor 1k" (1 # 100) 0;
   product "cable-1" "USB Cable" (3 # 2) 20000].

Definition intent : QueryIntent :=
  mkQueryIntent "raspberry pi power supply" 5 true None None relevance.

(** A client whose index calls succeed and whose [search] answers as
    [answer] says. *)
Definition client (answer : search_request → except es_response) : es_client :=
  mkClient (Ok true) (λ _, Ok true) (λ _, Ok tt) (λ _, Ok 4%Z) (λ _, Ok tt) answer.

Definition fresh : CatalogService := __init__ "digikey_products" 5 catalog.

(** The service after a startup that reached the engine. *)
Definition live (answer : search_request → except es_response) : CatalogService :=
  fst (initialize (λ _, Ok (client answer)) fresh).

Definition failing : search_request → except es_response :=
  λ _, Err (TransportError "connection reset").

Definition no_hits : search_request → except es_response :=
  λ _, Ok (mkResponse []).

(** Two hits, the second with an engine score of zero. *)
Definition hit_resistor : hit_t :=
  mkHit (Some (1 # 2)%Q) (Some (product "res-1" "Resistor 10k" (1 # 100) 0)).

Definition hit_cable : hit_t :=
  mkHit (Some 0%Q) (Some (product "cable-1" "USB Cable" (3 # 2) 20000)).

Definition two_hits : search_request → except es_response :=
  λ _, Ok (mkResponse [hit_resistor; hit_cable]).

Definition cheap_resistors : QueryIntent :=
  mkQueryIntent "resistor" 5 false None None price_low.

End Sample.

(** ** Reference readings of the specification *)

(** The significant tokens as the specification words them: lowercase,
    split at whitespace, strip trailing punctuation, then drop the tokens of
    length at most two and the stop words. *)
Definition described_coverage_tokens (query : string) : gset string :=
  list_to_set
    (filter (λ token, (2 < String.length token)%nat ∧ token ∉ coverage_stop_words)
            (Text.rstrip ",.?!" <$> Text.split (Text.lower query))).

(** The text of a specification map read pair by pair: every key, a space,
    its value, the pairs separated by one space. *)
Fixpoint concat_pairs (items : list (string * string)) : string :=
  match items with
  | [] => ""
  | (key, value) :: rest =>
      match rest with
      | [] => key +:+ " " +:+ value
      | _ => (key +:+ " " +:+ value) +:+ " " +:+ concat_pairs rest
      end
  end.

(** The spec blob as a function of the value under ["key_specs"] alone. *)
Definition blob_of_specs (specs : option specs_value) : string :=
  match specs with
  | None => ""
  | Some SpecsNotDict => ""
  | Some (SpecsDict items) => concat_pairs items
  end.

(** ** Ranking and admission predicates *)

(** [r1] may stand before [r2] in a list sorted by descending score. *)
Definition score_ge (r1 r2 : ProductResult) : Prop :=
  (recommendation_score r2 <= recommendation_score r1)%Q.

(** The haystack [_fallback_search] builds for a document whose four text
    keys are present. *)
Definition fallback_haystack (doc : doc_t) : string :=
  haystack_of (default "" (d_manufacturer doc))
              (default "" (d_manufacturer_part_number doc))
              (default "" (d_name doc))
              (default "" (d_description doc))
              (default [] (d_tags doc))
              (default [] (d_use_cases doc)).

(** What holds of a result [r] that the fallback loop appended for [doc]:
    it shows the document's price and quantity, the document passed the
    token test and the three constraints of the intent, and the score is the
    scoring model's at raw = top = 1. *)
Definition fallback_admits (intent : QueryIntent) (doc : doc_t) (r : ProductResult)
    : Prop :=
  d_quantity_available doc = Some (quantity_available r)
  ∧ d_unit_price doc = Some (unit_price r)
  ∧ d_id doc = Some (id r)
  ∧ (fallback_query_tokens (keywords intent) ≠ ∅ →
     (0 < count_matches (fallback_query_tokens (keywords intent))
            (fallback_haystack doc))%nat)
  ∧ (in_stock_only intent = true → (0 < quantity_available r)%Z)
  ∧ (∀ m, min_quantity intent = Some m → (m ≤ quantity_available r)%Z)
  ∧ (∀ p, max_unit_price intent = Some p → (unit_price r <= p)%Q)
  ∧ recommendation_score r
    = _recommendation_score 1 1 doc (_keyword_coverage (keywords intent) doc).

(** The data-model invariant of a catalog document: a quantity that is
    present is not negative. *)
Definition quantity_nonneg (doc : doc_t) : Prop :=
  ∀ q, d_quantity_available doc = Some q → (0 ≤ q)%Z.

(** A hit whose source carries every key the result constructor reads. *)
Definition hit_complete (hit : hit_t) : Prop :=
  ∃ doc, h_source hit = Some doc ∧ doc_complete doc.

(** The largest engine score among the hits, a missing score counting as
    the raw score 0 the loop over the hits gives it. *)
Definition max_engine_score (first : hit_t) (others : list hit_t) : Q :=
  py_max_seq (score_or 0 first) (score_or 0 <$> others).

(** ** Predicates for the service's further properties *)

(** An attempt of [_connect_with_retry] that yields a client whose [ping()]
    answers [True]. *)
Definition attempt_live (outcome : except es_client) : Prop :=
  ∃ client, outcome = Ok client ∧ c_ping client = Ok true.

(** The four keys [_fallback_search] reads with [doc[...]] to build the
    haystack. *)
Definition haystack_keys_present (doc : doc_t) : Prop :=
  is_Some (d_manufacturer doc) ∧ is_Some (d_manufacturer_part_number doc)
  ∧ is_Some (d_name doc) ∧ is_Some (d_description doc).

(** What a range clause of the request asks of a document, in the engine's
    reading of [gt], [gte] and [lte]. *)
Definition clause_holds (doc : doc_t) (clause : range_clause) : Prop :=
  match clause with
  | QuantityGt bound => ∃ q, d_quantity_available doc = Some q ∧ (bound < q)%Z
  | QuantityGte bound => ∃ q, d_quantity_available doc = Some q ∧ (bound ≤ q)%Z
  | UnitPriceLte bound => ∃ p, d_unit_price doc = Some p ∧ (p <= bound)%Q
  end.

(** The fixed warning of [search] in fallback mode. *)
Definition fallback_warning : string :=
  "Results are from fallback data, not Elasticsearch.".

(** The warning of [search] when the remote path raised [exc]. *)
Definition failure_warning (exc : exn) : string :=
  "Elasticsearch query failed (" +:+ exn_str exc +:+ "); using fallback data.".

(** Equality of two scores is decidable. *)
#[global] Instance Qeq_decision (x y : Q) : Decision (x == y)%Q := Qeq_dec x y.


(** The keys [_fallback_search] and [_search_elasticsearch] read with
    [doc[...]], which raises [KeyError] on an absent key. *)
Definition subscript_keys : list string :=
  ["id"; "manufacturer"; "manufacturer_part_number"; "name"; "description";
   "category"; "unit_price"; "quantity_available"; "product_url";
   "datasheet_url"].

(** Two results tie at the score [v]. *)
Definition scored (v : Q) (r : ProductResult) : Prop :=
  (recommendation_score r == v)%Q.

#[global] Instance scored_decision (v : Q) (r : ProductResult) :
  Decision (scored v r) := Qeq_dec (recommendation_score r) v.

(** ** The API layer ([app/main.py] with the models of [app/models.py]) *)

(** [class DirectSearchRequest(BaseModel)] *)
Record DirectSearchRequest : Type := mkDirectSearchRequest {
  dsr_query : string;
  dsr_limit : Z;
}.

(** The [Field] constraints FastAPI checks before [digikey_search] runs:
    [query: min_length=2, max_length=250], [limit: ge=1, le=25]. *)
Definition request_valid (request : DirectSearchRequest) : Prop :=
  (2 ≤ String.length (dsr_query request) ≤ 250)%nat
  ∧ (1 ≤ dsr_limit request ≤ 25)%Z.

(** [class DirectSearchProduct(BaseModel)] *)
Record DirectSearchProduct : Type := mkDirectSearchProduct {
  dp_id : option string;
  dp_manufacturer : string;
  dp_manufacturer_part_number : string;
  dp_name : string;
  dp_description : string;
  dp_category : string;
  dp_unit_price : option Q;
  dp_quantity_available : option Z;
  dp_product_url : option string;
  dp_datasheet_url : option string;
  dp_recommendation_score : option Q;
  dp_fit_reason : option string;
}.

(** [class DirectSearchResponse(BaseModel)] *)
Record DirectSearchResponse : Type := mkDirectSearchResponse {
  ds_source : string;
  ds_query : string;
  ds_products : list DirectSearchProduct;
  ds_warning : option string;
}.

(** [class ChatResponse(BaseModel)] *)
Record ChatResponse : Type := mkChatResponse {
  cr_mode : string;
  cr_intent : QueryIntent;
  cr_products : list ProductResult;
  cr_answer : string;
  cr_warning : option string;
}.

(** What can leave a function of [app/main.py]: pydantic's
    [ValidationError], with the names of the fields that failed, or an
    exception of the catalog service. *)
Inductive api_exn : Type :=
| ValidationError (fields : list string)
| CatalogError (e : exn).

Inductive api_result (A : Type) : Type :=
| Returned (a : A)
| Raised (e : api_exn).
Arguments Returned {A} a.
Arguments Raised {A} e.

(** [QueryIntent(keywords=..., limit=..., ...)]: pydantic checks the [Field]
    constraints ([limit: ge=1, le=20], [min_quantity: ge=0],
    [max_unit_price: gt=0]) and raises one [ValidationError] that names
    every field that fails. *)
Definition QueryIntent_init (keywords : string) (limit : Z) (in_stock_only : bool)
    (min_quantity : option Z) (max_unit_price : option Q)
    (sort_preference : sort_preference_t) : api_result QueryIntent :=
  let errors :=
    ((if bool_decide (1 ≤ limit ≤ 20)%Z then [] else ["limit"])
     ++ match min_quantity with
        | Some m => if bool_decide (0 ≤ m)%Z then [] else ["min_quantity"]
        | None => []
        end
     ++ match max_unit_price with
        | Some p => if Qltb 0 p then [] else ["max_unit_price"]
        | None => []
        end)%list in
  match errors with
  | [] => Returned (mkQueryIntent keywords limit in_stock_only min_quantity
                      max_unit_price sort_preference)
  | _ => Raised (ValidationError errors)
  end.

(** [a or b] on strings: the empty string is falsy. *)
Definition or_str (a b : string) : string := if decide (a = "") then b else a.

(** [a or b] on an optional string: [None] and the empty string are falsy. *)
Definition opt_or_str (a : option string) (b : string) : string :=
  match a with
  | Some s => or_str s b
  | None => b
  end.

(** [a or b] on integers: 0 is falsy. *)
Definition or_int (a b : Z) : Z := if decide (a = 0%Z) then b else a.

(** [a or b] on floats: 0.0 is falsy. *)
Definition or_float (a b : Q) : Q := if Qeq_bool a 0 then b else a.

#[global] Instance Qle_decision (x y : Q) : Decision (x <= y)%Q :=
  match Qlt_le_dec y x with
  | left H => right (Qlt_not_le _ _ H)
  | right H => left H
  end.

(** [_direct_to_product_result] *)
Definition _direct_to_product_result (item : DirectSearchProduct) (rank : nat)
    : ProductResult :=
  mkProductResult
    (opt_or_str (dp_id item)
       (or_str (dp_manufacturer_part_number item) ("product-" +:+ pretty rank)))
    (dp_manufacturer item)
    (dp_manufacturer_part_number item)
    (dp_name item)
    (dp_description item)
    (dp_category item)
    (match dp_unit_price item with Some price => price | None => 0%Q end)
    (match dp_quantity_available item with Some quantity => quantity | None => 0%Z end)
    (opt_or_str (dp_product_url item) "")
    (opt_or_str (dp_datasheet_url item) "")
    (match dp_recommendation_score item with Some score => score | None => (75 # 100)%Q end)
    (opt_or_str (dp_fit_reason item) "Result sourced from mock catalog.").

(** The [DirectSearchProduct(...)] call of [_query_mock_products]. *)
Definition direct_of_result (product : ProductResult) : DirectSearchProduct :=
  mkDirectSearchProduct
    (Some (id product))
    (manufacturer product)
    (manufacturer_part_number product)
    (name product)
    (description product)
    (category product)
    (Some (unit_price product))
    (Some (quantity_available product))
    (Some (product_url product))
    (Some (datasheet_url product))
    (Some (recommendation_score product))
    (Some (fit_reason product)).

(** [_query_mock_products], with the module's [catalog] as an argument;
    [search] leaves the service as it is. *)
Definition _query_mock_products (catalog : CatalogService) (query : string)
    (limit : Z) : api_result (list DirectSearchProduct * option string) :=
  match QueryIntent_init query limit false None None relevance with
  | Raised e => Raised e
  | Returned intent =>
      match snd (search catalog intent) with
      | Err e => Raised (CatalogError e)
      | Ok (fallback_products, fallback_warning) =>
          Returned (direct_of_result <$> fallback_products, fallback_warning)
      end
  end.

(** [_apply_intent_constraints] *)
Definition _apply_intent_constraints (products : list ProductResult)
    (intent : QueryIntent) : list ProductResult :=
  let filtered := products in
  let filtered :=
    if in_stock_only intent
    then filter (λ p, (0 < or_int (quantity_available p) 0)%Z) filtered
    else filtered in
  let filtered :=
    match min_quantity intent with
    | Some m => filter (λ p, (m ≤ or_int (quantity_available p) 0)%Z) filtered
    | None => filtered
    end in
  let filtered :=
    match max_unit_price intent with
    | Some mp => filter (λ p, (or_float (unit_price p) 0 <= mp)%Q) filtered
    | None => filtered
    end in
  slice_to (limit intent) filtered.

(** [QueryInterpreter] of [app/ai_assistant.py] as [chat] uses it: the
    intent [interpret] returns for a message and the text [summarize]
    answers. *)
Record QueryInterpreter : Type := mkQueryInterpreter {
  interpret : string → QueryIntent;
  summarize : QueryIntent → list ProductResult → string → string;
}.

(** [if value: parts.append(value)] on an optional string: [None] and the
    empty string are falsy. *)
Definition part_if_truthy (value : option string) : list string :=
  match value with
  | Some s => if decide (s = "") then [] else [s]
  | None => []
  end.

(** [chat], with the module's [interpreter], [catalog] and
    [app.state.startup_warning] as arguments. *)
Definition chat (interpreter : QueryInterpreter) (catalog : CatalogService)
    (startup_warning : option string) (message : string) : api_result ChatResponse :=
  let intent := interpret interpreter message in
  match _query_mock_products catalog (keywords intent) (limit intent) with
  | Raised e => Raised e
  | Returned (direct_products, query_warning) =>
      let source_label := "mock_catalog" in
      let products :=
        imap (λ idx item, _direct_to_product_result item idx) direct_products in
      let products := _apply_intent_constraints products intent in
      let answer := summarize interpreter intent products source_label in
      let warning_parts := (part_if_truthy startup_warning ++ part_if_truthy query_warning)%list in
      Returned (mkChatResponse source_label intent products answer
                  (match warning_parts with
                   | [] => None
                   | _ => Some (Text.join " " warning_parts)
                   end))
  end.

(** [digikey_search] *)
Definition digikey_search (catalog : CatalogService) (request : DirectSearchRequest)
    : api_result DirectSearchResponse :=
  match _query_mock_products catalog (dsr_query request) (dsr_limit request) with
  | Raised e => Raised e
  | Returned (products, warning) =>
      Returned (mkDirectSearchResponse "mock_catalog" (dsr_query request)
                  products warning)
  end.

(** What the constraints of an intent ask of a product. *)
Definition meets (intent : QueryIntent) (p : ProductResult) : Prop :=
  (if in_stock_only intent then (0 < quantity_available p)%Z else True)
  ∧ match min_quantity intent with
    | Some m => (m ≤ quantity_available p)%Z
    | None => True
    end
  ∧ match max_unit_price intent with
    | Some mp => (unit_price p <= mp)%Q
    | None => True
    end.

#[global] Instance meets_decision (intent : QueryIntent) (p : ProductResult) :
  Decision (meets intent p).
Proof.
  unfold meets.
  destruct (in_stock_only intent), (min_quantity intent), (max_unit_price intent);
    apply _.
Defined.

(** The intent [_query_mock_products] searches with for the keywords and
    limit of [intent]: no constraint, sort by relevance. *)
Definition relaxed (intent : QueryIntent) : QueryIntent :=
  mkQueryIntent (keywords intent) (limit intent) false None None relevance.

(** ** The seeding script ([scripts/seed_elasticsearch.py]) *)

(** What the script's helpers raise: a [RuntimeError] of their own, or the
    exception of the call they wrap. *)
Inductive script_exn : Type :=
| RuntimeError (message : string)
| CallError (e : exn).

Inductive script_result (A : Type) : Type :=
| Done (a : A)
| Failed (e : script_exn).
Arguments Done {A} a.
Arguments Failed {A} e.

(** The loop of [call_with_retries].  [func k] is what the [k]-th call of
    the callable gives (the callable reads the engine, so its calls may
    differ); [last_exc] is the variable of that name. *)
Fixpoint retry_loop {A} (func : nat → except A) (k remaining : nat)
    (last_exc : option exn) : A + option exn :=
  match remaining with
  | O => inr last_exc
  | S remaining' =>
      match func k with
      | Ok a => inl a
      | Err exc => retry_loop func (S k) remaining' (Some exc)
      end
  end.

(** [call_with_retries]; an exception object is truthy. *)
Definition call_with_retries {A} (func : nat → except A) (attempts : Z)
    : script_result A :=
  match retry_loop func 0 (Z.to_nat attempts) None with
  | inl a => Done a
  | inr (Some last_exc) => Failed (CallError last_exc)
  | inr None => Failed (RuntimeError "Retry operation failed unexpectedly")
  end.

(** The loop shared by [wait_for_elasticsearch] and [wait_for_query_ready]:
    [ready k] is what the [try] body of attempt [k] gives; an exception is
    passed over like an answer that is not true. *)
Fixpoint wait_loop (ready : nat → except bool) (k remaining : nat) : bool :=
  match remaining with
  | O => false
  | S remaining' =>
      match ready k with
      | Ok true => true
      | _ => wait_loop ready (S k) remaining'
      end
  end.

(** [wait_for_elasticsearch]; [ping k] is what [client.ping()] gives at
    attempt [k]. *)
Definition wait_for_elasticsearch (ping : nat → except bool) (attempts : Z)
    : script_result unit :=
  if wait_loop ping 0 (Z.to_nat attempts) then Done tt
  else Failed (RuntimeError "Elasticsearch did not become available in time").

(** [wait_for_query_ready]; [health k] and [info k] are what
    [client.cluster.health(...)] and [client.info()] give at attempt [k]. *)
Definition wait_for_query_ready (health info : nat → except unit) (attempts : Z)
    : script_result unit :=
  if wait_loop (λ k, _ ← health k; _ ← info k; mret true) 0 (Z.to_nat attempts)
  then Done tt
  else Failed (RuntimeError "Elasticsearch query APIs did not become ready in time").

(** * Properties *)

(** ** Text lemmas *)

Lemma contains_skip (a t h : string) :
  Text.contains t h = true → Text.contains t (a +:+ h) = true.
Proof.
  intros Hh. induction a as [|c a IH]; simpl; [exact Hh|].
  rewrite IH. apply orb_true_r.
Qed.

(** ** Totality of the fallback path on complete documents *)

Lemma make_result_total (doc : doc_t) (score : Q) (reason : string) :
  doc_complete doc → ∃ r, make_result doc score reason = Ok r.
Proof.
  intros (H1 & H2 & H3 & H4 & H5 & H6 & H7 & H8 & H9 & H10).
  unfold make_result.
  destruct H1 as [? ->], H2 as [? ->], H3 as [? ->], H4 as [? ->],
    H5 as [? ->], H6 as [? ->], H7 as [? ->], H8 as [? ->], H9 as [? ->],
    H10 as [? ->].
  simpl. eauto.
Qed.

Lemma fallback_candidate_total (intent : QueryIntent) (tokens : gset string)
    (doc : doc_t) :
  doc_complete doc → ∃ c, fallback_candidate intent tokens doc = Ok c.
Proof.
  intros Hc.
  destruct (make_result_total doc
              (_recommendation_score 1 1 doc (_keyword_coverage (keywords intent) doc))
              (_build_reason doc
                 (_recommendation_score 1 1 doc (_keyword_coverage (keywords intent) doc))
                 (_keyword_coverage (keywords intent) doc)) Hc) as [r Hr].
  destruct Hc as (_ & [m Hm] & [pn Hpn] & [nm Hnm] & [ds Hds] & _ & [p Hp] & [q Hq] & _).
  unfold fallback_candidate. rewrite Hm, Hpn, Hnm, Hds, Hq, Hp. simpl.
  destruct (_ && _); [by eexists|].
  destruct (in_stock_only intent); simpl.
  - destruct (q <=? 0)%Z; [by eexists|].
    destruct (min_quantity intent) as [mq|]; simpl.
    + destruct (q <? mq)%Z; [by eexists|].
      destruct (max_unit_price intent) as [mp|]; simpl.
      * destruct (Qltb mp p); [by eexists|]. rewrite Hr. by eexists.
      * rewrite Hr. by eexists.
    + destruct (max_unit_price intent) as [mp|]; simpl.
      * destruct (Qltb mp p); [by eexists|]. rewrite Hr. by eexists.
      * rewrite Hr. by eexists.
  - destruct (min_quantity intent) as [mq|]; simpl.
    + destruct (q <? mq)%Z; [by eexists|].
      destruct (max_unit_price intent) as [mp|]; simpl.
      * destruct (Qltb mp p); [by eexists|]. rewrite Hr. by eexists.
      * rewrite Hr. by eexists.
    + destruct (max_unit_price intent) as [mp|]; simpl.
      * destruct (Qltb mp p); [by eexists|]. rewrite Hr. by eexists.
      * rewrite Hr. by eexists.
Qed.

Lemma fallback_loop_total (intent : QueryIntent) (tokens : gset string)
    (docs : list doc_t) :
  Forall doc_complete docs → ∃ rs, fallback_loop intent tokens docs = Ok rs.
Proof.
  induction 1 as [|doc docs Hd _ [rs IH]]; simpl; [by eexists|].
  destruct (fallback_candidate_total intent tokens doc Hd) as [c ->].
  rewrite IH. simpl. by eexists.
Qed.

Lemma _fallback_search_total (self : CatalogService) (intent : QueryIntent) :
  Forall doc_complete (_fallback_docs self) →
  ∃ rs, _fallback_search self intent = Ok rs.
Proof.
  intros H. unfold _fallback_search.
  destruct (fallback_loop_total intent
              (fallback_query_tokens (keywords intent)) _ H) as [rs ->].
  simpl. by eexists.
Qed.

(** ** Dispatch: modes and per-call fallback *)

Lemma search_keeps_service (self : CatalogService) (intent : QueryIntent) :
  fst (search self intent) = self.
Proof.
  unfold search.
  destruct (bool_decide _), (_client self) as [client|]; try done.
  by destruct (_search_elasticsearch _ _ _).
Qed.

Lemma initialize_mode (attempt : nat → except es_client) (self : CatalogService) :
  _mode (fst (initialize attempt self)) = "fallback"
  ∨ _mode (fst (initialize attempt self)) = "elasticsearch"
  ∨ _mode (fst (initialize attempt self)) = _mode self.
Proof.
  unfold initialize.
  destruct (_connect_with_retry _ _) as [client|]; [|by left].
  destruct (_ensure_index _ _); [|by right; right].
  destruct (_seed_if_empty _ _ _); [by right; left | by right; right].
Qed.

(** C1. When the service is in remote mode and the remote search raises an
    exception, whatever it is, [search] answers from the fallback search
    with a warning that contains the word "fallback", and leaves the service,
    hence what [mode] reports, as it was.  On a catalog whose documents
    carry all their keys this answer is a returned pair, not an exception. *)
Theorem search_remote_failure_falls_back
    (self : CatalogService) (intent : QueryIntent) (client : es_client) (exc : exn) :
  _mode self = "elasticsearch" →
  _client self = Some client →
  _search_elasticsearch client (es_index self) intent = Err exc →
  let warning :=
    "Elasticsearch query failed (" +:+ exn_str exc +:+ "); using fallback data." in
  Text.contains "fallback" warning = true
  ∧ fst (search self intent) = self
  ∧ mode (fst (search self intent)) = mode self
  ∧ snd (search self intent)
    = (results ← _fallback_search self intent; mret (results, Some warning))
  ∧ (Forall doc_complete (_fallback_docs self) →
     ∃ results, _fallback_search self intent = Ok results
                ∧ snd (search self intent) = Ok (results, Some warning)).
Proof.
  intros Hmode Hclient Hraise warning.
  assert (Hsnd : snd (search self intent)
                 = (results ← _fallback_search self intent;
                    mret (results, Some warning))).
  { unfold search. rewrite Hmode, Hclient, Hraise. reflexivity. }
  split; [|split; [|split; [|split]]].
  - unfold warning. do 2 apply contains_skip. reflexivity.
  - apply search_keeps_service.
  - by rewrite search_keeps_service.
  - exact Hsnd.
  - intros Hdocs.
    destruct (_fallback_search_total self intent Hdocs) as [results Hres].
    exists results. split; [exact Hres|].
    rewrite Hsnd, Hres. reflexivity.
Qed.

Lemma search_remote_failure_falls_back_witness :
  mode (Sample.live Sample.failing) = "elasticsearch"
  ∧ Text.contains "fallback"
      ("Elasticsearch query failed (" +:+ "connection reset"
       +:+ "); using fallback data.") = true
  ∧ mode (fst (search (Sample.live Sample.failing) Sample.intent)) = "elasticsearch".
Proof.
  pose proof (search_remote_failure_falls_back
                (Sample.live Sample.failing) Sample.intent
                (Sample.client Sample.failing)
                (TransportError "connection reset")
                eq_refl eq_refl eq_refl) as (Hw & _ & Hm & _).
  split; [reflexivity|]. split; [exact Hw | exact Hm].
Defined.

(** C2, as the code has it.  In every state the service can reach, [mode]
    reports one of the two strings "fallback" and "elasticsearch". *)
Theorem mode_fallback_or_elasticsearch (self : CatalogService) :
  reachable self → mode self = "fallback" ∨ mode self = "elasticsearch".
Proof.
  unfold mode. induction 1 as [index attempts docs | attempt self _ IH | self intent _ IH].
  - by left.
  - destruct (initialize_mode attempt self) as [H | [H | H]]; rewrite H; auto.
  - by rewrite search_keeps_service.
Qed.

Lemma mode_fallback_or_elasticsearch_witness :
  mode (Sample.live Sample.no_hits) = "fallback"
  ∨ mode (Sample.live Sample.no_hits) = "elasticsearch".
Proof.
  apply mode_fallback_or_elasticsearch.
  apply reach_initialize, reach_init.
Defined.

(** C2 as stated fails: after a startup that reaches the engine, [mode]
    reports "elasticsearch", which is neither "fallback" nor "remote". *)
Lemma mode_remote_counterexample :
  reachable (Sample.live Sample.no_hits)
  ∧ mode (Sample.live Sample.no_hits) = "elasticsearch"
  ∧ ¬ (mode (Sample.live Sample.no_hits) = "fallback"
       ∨ mode (Sample.live Sample.no_hits) = "remote").
Proof.
  split; [apply reach_initialize, reach_init|].
  split; [reflexivity|].
  intros [H | H]; discriminate H.
Qed.

(** C8. In remote mode, when the engine answers with zero hits, [search]
    returns the empty list and no warning.  The answer is the same whatever
    the fallback catalog holds, also one on which the fallback search would
    raise: the fallback search takes no part in it. *)
Theorem search_remote_zero_hits
    (self : CatalogService) (intent : QueryIntent) (client : es_client)
    (response : es_response) :
  _mode self = "elasticsearch" →
  _client self = Some client →
  c_search client (build_request (es_index self) intent) = Ok response →
  resp_hits response = [] →
  search self intent = (self, Ok ([], None))
  ∧ ∀ docs,
      snd (search (mkService (es_index self) (connect_attempts self)
                     (_client self) (_mode self) docs) intent)
      = Ok ([], None).
Proof.
  intros Hmode Hclient Hresp Hhits. split.
  - unfold search, _search_elasticsearch.
    rewrite Hmode, Hclient, Hresp. simpl. rewrite Hhits. reflexivity.
  - intros docs. unfold search, _search_elasticsearch. simpl.
    rewrite Hmode, Hclient, Hresp. simpl. rewrite Hhits. reflexivity.
Qed.

Lemma search_remote_zero_hits_witness :
  search (Sample.live Sample.no_hits) Sample.intent
  = (Sample.live Sample.no_hits, Ok ([], None))
  ∧ _fallback_search
      (mkService "digikey_products" 5 (Some (Sample.client Sample.no_hits))
         "elasticsearch" [empty_doc]) Sample.intent
    = Err (KeyError "manufacturer")
  ∧ snd (search
           (mkService "digikey_products" 5 (Some (Sample.client Sample.no_hits))
              "elasticsearch" [empty_doc]) Sample.intent)
    = Ok ([], None).
Proof.
  pose proof (search_remote_zero_hits
                (Sample.live Sample.no_hits) Sample.intent
                (Sample.client Sample.no_hits) (mkResponse [])
                eq_refl eq_refl eq_refl eq_refl) as [H1 H2].
  split; [exact H1|]. split; [reflexivity|]. exact (H2 [empty_doc]).
Defined.

(** ** The two tokenisers *)

Lemma elem_of_token_set (stop_words : gset string) (query t : string) :
  t ∈ token_set stop_words query
  ↔ ∃ w, w ∈ Text.split (Text.lower query)
         ∧ (2 < String.length w)%nat
         ∧ t = Text.strip ",.?!" w
         ∧ t ∉ stop_words.
Proof.
  unfold token_set. rewrite elem_of_list_to_set, list_elem_of_fmap.
  split.
  - intros (w & -> & Hw). apply list_elem_of_filter in Hw as [[Hlen Hstop] Hin].
    eauto.
  - intros (w & Hin & Hlen & -> & Hstop). exists w. split; [done|].
    apply list_elem_of_filter. auto.
Qed.

(** The two stop-word sets agree except on three words. *)
Lemma stop_words_differ (t : string) :
  t ∈ fallback_stop_words ∨ t = "in"
  ↔ t ∈ coverage_stop_words ∨ t = "cheapest" ∨ t = "in-stock".
Proof.
  unfold fallback_stop_words, coverage_stop_words. simpl.
  set_unfold. tauto.
Qed.

(** How far the two tokenisers are apart.  [_fallback_search] and
    [_keyword_coverage] share the lowercasing, the whitespace split, the
    stripping and the length test, and each writes a [stop_words] literal of
    its own.  The two literals differ in three words: the fallback one also
    holds "cheapest" and "in-stock", the coverage one also holds "in".
    Apart from these three words the two token sets are the same. *)
Theorem tokenisers_agree_up_to_stop_words (query : string) :
  (fallback_query_tokens query ∖ {["in"]}
   = coverage_query_tokens query ∖ {["cheapest"; "in-stock"]})
  ∧ ("cheapest" ∉ fallback_query_tokens query)
  ∧ ("in-stock" ∉ fallback_query_tokens query)
  ∧ ("in" ∉ coverage_query_tokens query).
Proof.
  split; [|split; [|split]].
  - apply set_eq. intros t.
    unfold fallback_query_tokens, coverage_query_tokens.
    rewrite !elem_of_difference, !elem_of_token_set.
    destruct (stop_words_differ t) as [Hfc Hcf].
    rewrite elem_of_union, !elem_of_singleton.
    split.
    + intros [(w & Hin & Hlen & Heq & Hstop) Hne]. split.
      * exists w. split; [exact Hin|]. split; [exact Hlen|]. split; [exact Heq|].
        intros Hc. destruct (Hcf (or_introl Hc)) as [Hf | Hi];
          [exact (Hstop Hf) | exact (Hne Hi)].
      * intros Hc. apply Hstop.
        destruct (Hcf (or_intror Hc)) as [Hf | Hi]; [exact Hf|].
        destruct Hc as [Hc | Hc]; rewrite Hi in Hc; discriminate Hc.
    + intros [(w & Hin & Hlen & Heq & Hstop) Hne]. split.
      * exists w. split; [exact Hin|]. split; [exact Hlen|]. split; [exact Heq|].
        intros Hf. destruct (Hfc (or_introl Hf)) as [Hc | Hc];
          [exact (Hstop Hc) | exact (Hne Hc)].
      * intros Hi. apply Hstop.
        destruct (Hfc (or_intror Hi)) as [Hc | Hc]; [exact Hc|].
        destruct Hc as [Hc | Hc]; rewrite Hi in Hc; discriminate Hc.
  - unfold fallback_query_tokens. rewrite elem_of_token_set.
    intros (w & _ & _ & _ & Hstop). apply Hstop. vm_compute; reflexivity.
  - unfold fallback_query_tokens. rewrite elem_of_token_set.
    intros (w & _ & _ & _ & Hstop). apply Hstop. vm_compute; reflexivity.
  - unfold coverage_query_tokens. rewrite elem_of_token_set.
    intros (w & _ & _ & _ & Hstop). apply Hstop. vm_compute; reflexivity.
Qed.

(** C3.  The code breaks the claim at the query "cheapest":
    [_fallback_search] finds no significant token there, and
    [_keyword_coverage], which [_fallback_search] calls on the same query to
    score the documents it admitted, finds one.  The two [stop_words]
    literals are copies of one list that have drifted apart. *)
Lemma tokenisers_differ_counterexample :
  fallback_query_tokens "cheapest" = ∅
  ∧ coverage_query_tokens "cheapest" = {["cheapest"]}
  ∧ fallback_query_tokens "cheapest" ≠ coverage_query_tokens "cheapest".
Proof.
  assert (Hf : fallback_query_tokens "cheapest" = ∅) by (vm_compute; reflexivity).
  assert (Hc : coverage_query_tokens "cheapest" = {["cheapest"]})
    by (vm_compute; reflexivity).
  split; [exact Hf|]. split; [exact Hc|].
  rewrite Hf, Hc. intros H.
  apply (non_empty_singleton_L (C := gset string) "cheapest"). by symmetry.
Qed.

(** ** Keyword coverage *)

Lemma count_matches_le (tokens : gset string) (haystack : string) :
  (count_matches tokens haystack ≤ size tokens)%nat.
Proof.
  unfold count_matches. apply subseteq_size.
  intros t Ht. by apply elem_of_filter in Ht as [_ Ht].
Qed.

Lemma ratio_in_unit_interval (m n : nat) :
  (m ≤ n)%nat → (0 < n)%nat →
  (0 <= inject_Z (Z.of_nat m) / inject_Z (Z.of_nat n) <= 1)%Q.
Proof.
  intros Hle Hpos.
  assert (Hn : (0 < inject_Z (Z.of_nat n))%Q).
  { unfold Qlt. simpl. lia. }
  split.
  - apply Qle_shift_div_l; [exact Hn|]. unfold Qle. simpl. lia.
  - apply Qle_shift_div_r; [exact Hn|]. unfold Qle. simpl. lia.
Qed.

Lemma _keyword_coverage_range (query : string) (doc : doc_t) :
  (0 <= _keyword_coverage query doc <= 1)%Q.
Proof.
  unfold _keyword_coverage.
  destruct (decide (coverage_query_tokens query = ∅)) as [He | Hne].
  - split; [apply Qle_refl | discriminate].
  - apply ratio_in_unit_interval; [apply count_matches_le|].
    apply Nat.neq_0_lt_0. intros Hz. apply size_empty_inv in Hz.
    apply Hne. by apply leibniz_equiv.
Qed.

(** C7, as the code has it.  The significant tokens of [_keyword_coverage]
    are the words of the lowercased, whitespace-split query whose length,
    read before stripping, exceeds two, stripped of the characters , . ? !
    at both ends, and kept when the stripped word is not a stop word.
    The coverage is 0 when there is none; otherwise it is the number of
    significant tokens found in the lowercased haystack divided by their
    number.  It always lies between 0 and 1. *)
Theorem keyword_coverage_ratio (query : string) (doc : doc_t) :
  (∀ t, t ∈ coverage_query_tokens query
        ↔ ∃ w, w ∈ Text.split (Text.lower query)
               ∧ (2 < String.length w)%nat
               ∧ t = Text.strip ",.?!" w
               ∧ t ∉ coverage_stop_words)
  ∧ _keyword_coverage query doc
    = (if decide (coverage_query_tokens query = ∅) then 0%Q
       else
         (inject_Z
            (Z.of_nat
               (count_matches (coverage_query_tokens query)
                  (haystack_of (default "" (d_manufacturer doc))
                     (default "" (d_manufacturer_part_number doc))
                     (default "" (d_name doc))
                     (default "" (d_description doc))
                     (default [] (d_tags doc))
                     (default [] (d_use_cases doc)))))
          / inject_Z (Z.of_nat (size (coverage_query_tokens query))))%Q)
  ∧ (0 <= _keyword_coverage query doc <= 1)%Q.
Proof.
  split; [intros t; apply elem_of_token_set|].
  split; [reflexivity | apply _keyword_coverage_range].
Qed.

(** C7 as stated fails on the query "ab," and a document named
    "USB Cable".  Read as the specification words it, the query has no
    significant token (stripping leaves "ab", of length two), so the coverage
    would be 0; the code tests the length of "ab," before stripping, keeps
    "ab", finds it in "cable" and returns 1. *)
Lemma keyword_coverage_described_counterexample :
  described_coverage_tokens "ab," = ∅
  ∧ coverage_query_tokens "ab," = {["ab"]}
  ∧ _keyword_coverage "ab," (Sample.product "cable-1" "USB Cable" (3 # 2) 20000) = 1%Q
  ∧ ¬ (_keyword_coverage "ab," (Sample.product "cable-1" "USB Cable" (3 # 2) 20000) == 0)%Q.
Proof.
  split; [vm_compute; reflexivity|]. split; [vm_compute; reflexivity|].
  split; [vm_compute; reflexivity|]. vm_compute. discriminate.
Qed.

(** ** Spec blob *)

Lemma join_pairs_concat (items : list (string * string)) :
  Text.join " " ((λ kv, fst kv +:+ " " +:+ snd kv) <$> items) = concat_pairs items.
Proof.
  induction items as [|[key value] rest IH]; [reflexivity|].
  destruct rest as [|kv rest]; [reflexivity|].
  change (Text.join " " ((λ kv, fst kv +:+ " " +:+ snd kv) <$> (key, value) :: kv :: rest))
    with ((key +:+ " " +:+ value) +:+ " "
          +:+ Text.join " " ((λ kv, fst kv +:+ " " +:+ snd kv) <$> kv :: rest)).
  rewrite IH. reflexivity.
Qed.

Lemma _spec_blob_from_doc_specs (doc : doc_t) :
  _spec_blob_from_doc doc = blob_of_specs (d_key_specs doc).
Proof.
  unfold _spec_blob_from_doc, blob_of_specs.
  destruct (d_key_specs doc) as [[items|]|]; simpl;
    [apply join_pairs_concat | reflexivity | reflexivity].
Qed.

(** C9. The spec blob is a function of the specification map alone: both
    implementations, the service's and the seeding script's, return the
    pair-by-pair text of the value under ["key_specs"], whatever the other
    fields hold.  Storing the blob in a document does not change what a
    second computation gives, so computing it again yields the same string
    and storing it twice is storing it once. *)
Theorem spec_blob_pure (doc : doc_t) :
  _spec_blob_from_doc doc = blob_of_specs (d_key_specs doc)
  ∧ spec_blob doc = blob_of_specs (d_key_specs doc)
  ∧ _spec_blob_from_doc (set_spec_blob (_spec_blob_from_doc doc) doc)
    = _spec_blob_from_doc doc
  ∧ (let stored := set_spec_blob (_spec_blob_from_doc doc) doc in
     set_spec_blob (_spec_blob_from_doc stored) stored = stored).
Proof.
  split; [apply _spec_blob_from_doc_specs|].
  split; [apply _spec_blob_from_doc_specs|].
  split; reflexivity.
Qed.

(** ** Ranking *)

Lemma Qltb_lt (x y : Q) : Qltb x y = true ↔ (x < y)%Q.
Proof.
  unfold Qltb. rewrite Qlt_alt. destruct (x ?= y)%Q; split; congruence.
Qed.

Lemma Qltb_ge (x y : Q) : Qltb x y = false ↔ (y <= x)%Q.
Proof.
  rewrite <- not_true_iff_false, Qltb_lt. split.
  - apply Qnot_lt_le.
  - intros H1 H2. exact (Qlt_not_le _ _ H2 H1).
Qed.

Lemma score_ge_trans (r1 r2 r3 : ProductResult) :
  score_ge r1 r2 → score_ge r2 r3 → score_ge r1 r3.
Proof. unfold score_ge. intros H12 H23. exact (Qle_trans _ _ _ H23 H12). Qed.

Lemma insert_desc_perm (r : ProductResult) (l : list ProductResult) :
  insert_desc r l ≡ₚ r :: l.
Proof.
  induction l as [|r' l IH]; simpl; [done|].
  destruct (Qltb _ _); [|done].
  rewrite IH. apply Permutation_swap.
Qed.

Lemma sort_by_score_desc_perm (l : list ProductResult) :
  sort_by_score_desc l ≡ₚ l.
Proof.
  induction l as [|r l IH]; simpl; [done|].
  rewrite insert_desc_perm. by rewrite IH.
Qed.

Lemma insert_desc_sorted (r : ProductResult) (l : list ProductResult) :
  StronglySorted score_ge l → StronglySorted score_ge (insert_desc r l).
Proof.
  induction 1 as [|r' l Hs IH Hall]; simpl.
  - repeat constructor.
  - destruct (Qltb _ _) eqn:Hcmp.
    + constructor; [exact IH|].
      rewrite insert_desc_perm. constructor; [|exact Hall].
      apply Qltb_lt in Hcmp. unfold score_ge. by apply Qlt_le_weak.
    + apply Qltb_ge in Hcmp.
      constructor; [by constructor|].
      constructor; [exact Hcmp|].
      eapply Forall_impl; [exact Hall|].
      intros r'' Hr''. eapply score_ge_trans; [exact Hcmp | exact Hr''].
Qed.

Lemma sort_by_score_desc_sorted (l : list ProductResult) :
  StronglySorted score_ge (sort_by_score_desc l).
Proof.
  induction l as [|r l IH]; simpl; [constructor | by apply insert_desc_sorted].
Qed.

Lemma StronglySorted_take {A} (R : A → A → Prop) (n : nat) (l : list A) :
  StronglySorted R l → StronglySorted R (take n l).
Proof.
  intros Hs. revert n. induction Hs as [|x l Hs IH Hall]; intros [|n]; simpl;
    try constructor.
  - apply IH.
  - by apply Forall_take.
Qed.

Lemma slice_to_sorted (n : Z) (l : list ProductResult) :
  StronglySorted score_ge l → StronglySorted score_ge (slice_to n l).
Proof. unfold slice_to. destruct (0 <=? n)%Z; apply StronglySorted_take. Qed.

Lemma slice_to_sublist (n : Z) (l : list ProductResult) (r : ProductResult) :
  r ∈ slice_to n l → r ∈ l.
Proof.
  unfold slice_to. destruct (0 <=? n)%Z; apply subseteq_take.
Qed.

Lemma slice_to_length (n : Z) (l : list ProductResult) :
  (0 ≤ n)%Z → (length (slice_to n l) ≤ Z.to_nat n)%nat.
Proof.
  intros Hn. unfold slice_to.
  destruct (Z.leb_spec 0 n); [|lia].
  rewrite length_take. lia.
Qed.

(** ** Fallback search *)

Lemma except_bind_Ok {A B} (m : except A) (k : A → except B) (b : B) :
  m ≫= k = Ok b → ∃ a, m = Ok a ∧ k a = Ok b.
Proof. destruct m as [a|e]; [by exists a | discriminate]. Qed.

Lemma make_result_fields (doc : doc_t) (score : Q) (reason : string) (r : ProductResult) :
  make_result doc score reason = Ok r →
  d_quantity_available doc = Some (quantity_available r)
  ∧ d_unit_price doc = Some (unit_price r)
  ∧ d_id doc = Some (id r)
  ∧ recommendation_score r = score.
Proof.
  intros H. unfold make_result in H.
  apply except_bind_Ok in H as (r_id & Hid & H).
  do 5 (apply except_bind_Ok in H as (? & _ & H)).
  apply except_bind_Ok in H as (r_price & Hprice & H).
  apply except_bind_Ok in H as (r_quantity & Hquantity & H).
  do 2 (apply except_bind_Ok in H as (? & _ & H)).
  injection H as <-. simpl.
  destruct (d_id doc); [|discriminate]. injection Hid as ->.
  destruct (d_unit_price doc); [|discriminate]. injection Hprice as ->.
  destruct (d_quantity_available doc); [|discriminate]. injection Hquantity as ->.
  auto.
Qed.

Lemma fallback_candidate_admits (intent : QueryIntent) (doc : doc_t) (r : ProductResult) :
  fallback_candidate intent (fallback_query_tokens (keywords intent)) doc = Ok (Some r) →
  fallback_admits intent doc r.
Proof.
  intros H. unfold fallback_candidate in H.
  apply except_bind_Ok in H as (m & Hm & H).
  apply except_bind_Ok in H as (pn & Hpn & H).
  apply except_bind_Ok in H as (nm & Hnm & H).
  apply except_bind_Ok in H as (ds & Hds & H).
  destruct (_ && _) eqn:Htok in H; [discriminate|].
  apply except_bind_Ok in H as ([|] & Hstock & H); [discriminate|].
  apply except_bind_Ok in H as ([|] & Hmin & H); [discriminate|].
  apply except_bind_Ok in H as ([|] & Hprice & H); [discriminate|].
  apply except_bind_Ok in H as (r' & Hr & H). injection H as ->.
  apply make_result_fields in Hr as (Hq & Hp & Hid & Hscore).
  rewrite Hq in Hstock, Hmin. rewrite Hp in Hprice.
  unfold fallback_admits, fallback_haystack.
  destruct (d_manufacturer doc); [|discriminate]. injection Hm as ->.
  destruct (d_manufacturer_part_number doc); [|discriminate]. injection Hpn as ->.
  destruct (d_name doc); [|discriminate]. injection Hnm as ->.
  destruct (d_description doc); [|discriminate]. injection Hds as ->.
  simpl.
  split; [done|]. split; [done|]. split; [done|].
  split; [|split; [|split; [|split]]].
  - intros Hne. apply andb_false_iff in Htok as [Htok | Htok].
    + apply bool_decide_eq_false in Htok. contradiction.
    + apply Nat.eqb_neq in Htok. lia.
  - intros Hin. rewrite Hin in Hstock. simpl in Hstock.
    injection Hstock as Hstock. apply Z.leb_gt in Hstock. exact Hstock.
  - intros mq Hmq. rewrite Hmq in Hmin. simpl in Hmin.
    injection Hmin as Hmin. apply Z.ltb_ge in Hmin. exact Hmin.
  - intros mp Hmp. rewrite Hmp in Hprice. simpl in Hprice.
    injection Hprice as Hprice. by apply Qltb_ge in Hprice.
  - exact Hscore.
Qed.

Lemma fallback_loop_admits (intent : QueryIntent) (docs : list doc_t)
    (results : list ProductResult) :
  fallback_loop intent (fallback_query_tokens (keywords intent)) docs = Ok results →
  Forall (λ r, ∃ doc, doc ∈ docs ∧ fallback_admits intent doc r) results.
Proof.
  revert results. induction docs as [|doc docs IH]; simpl; intros results H.
  - injection H as <-. constructor.
  - destruct (fallback_candidate _ _ doc) as [c|] eqn:Hc; [|discriminate].
    destruct (fallback_loop _ _ docs) as [rs|]; [|discriminate].
    simpl in H. injection H as <-.
    assert (Hrs : Forall (λ r, ∃ doc0, doc0 ∈ doc :: docs ∧ fallback_admits intent doc0 r) rs).
    { eapply Forall_impl; [exact (IH rs eq_refl)|].
      intros r (d & Hd & Ha). exists d. split; [by right | exact Ha]. }
    destruct c as [r|]; [|exact Hrs].
    constructor; [|exact Hrs].
    exists doc. split; [by left | by apply fallback_candidate_admits].
Qed.

Lemma _fallback_search_admits (self : CatalogService) (intent : QueryIntent)
    (results : list ProductResult) :
  _fallback_search self intent = Ok results →
  Forall (λ r, ∃ doc, doc ∈ _fallback_docs self ∧ fallback_admits intent doc r)
         results.
Proof.
  intros H. unfold _fallback_search in H.
  apply except_bind_Ok in H as (found & Hloop & H). injection H as <-.
  apply fallback_loop_admits in Hloop.
  apply Forall_forall. intros r Hr.
  apply slice_to_sublist in Hr.
  rewrite sort_by_score_desc_perm in Hr.
  revert r Hr. by apply Forall_forall.
Qed.

(** C6. Every result the fallback search returns comes from a catalog
    document that meets the intent's constraints (quantity above zero when
    [in_stock_only] is set, at least [min_quantity] and at most
    [max_unit_price] when these are given) and, when the query has
    significant tokens, contains at least one of them; the list is sorted by
    descending [recommendation_score] and is no longer than the intent's
    limit.  On a catalog whose documents carry all their keys the search
    does return a list. *)
Theorem fallback_search_results (self : CatalogService) (intent : QueryIntent) :
  intent_valid intent →
  (∀ results, _fallback_search self intent = Ok results →
     Forall (λ r, ∃ doc, doc ∈ _fallback_docs self ∧ fallback_admits intent doc r)
            results
     ∧ StronglySorted score_ge results
     ∧ (length results ≤ Z.to_nat (limit intent))%nat)
  ∧ (Forall doc_complete (_fallback_docs self) →
     ∃ results, _fallback_search self intent = Ok results).
Proof.
  intros [Hlimit _]. split; [|apply _fallback_search_total].
  intros results H.
  split; [by apply _fallback_search_admits|].
  unfold _fallback_search in H.
  apply except_bind_Ok in H as (found & Hloop & H). injection H as <-.
  split.
  - apply slice_to_sorted, sort_by_score_desc_sorted.
  - apply slice_to_length. lia.
Qed.

Lemma fallback_search_results_witness :
  intent_valid Sample.intent
  ∧ ∃ results,
      _fallback_search Sample.fresh Sample.intent = Ok results
      ∧ id <$> results = ["cable-1"; "rpi-psu"]
      ∧ StronglySorted score_ge results
      ∧ (length results ≤ 5)%nat.
Proof.
  assert (Hvalid : intent_valid Sample.intent).
  { split; [simpl; lia|]. split; intros ? [=]. }
  split; [exact Hvalid|].
  destruct (fallback_search_results Sample.fresh Sample.intent Hvalid)
    as [Hprops Htotal].
  destruct Htotal as [results Hres].
  { repeat constructor; simpl; eauto. }
  exists results. destruct (Hprops results Hres) as (_ & Hsorted & Hlen).
  split; [exact Hres|]. split; [|split; [exact Hsorted | exact Hlen]].
  assert (Hc : id <$> results = ["cable-1"; "rpi-psu"]); [|exact Hc].
  revert Hres. vm_compute. intros [= <-]. reflexivity.
Defined.

(** ** Scoring model *)

Lemma py_max_Qmax (a b : Q) : py_max a b = Qmax a b.
Proof. unfold py_max, Qltb, Qmax, GenericMinMax.gmax. by destruct (a ?= b)%Q. Qed.

Lemma py_min_Qmin (a b : Q) : py_min a b = Qmin a b.
Proof.
  unfold py_min, Qltb, Qmin, GenericMinMax.gmin.
  rewrite <- (Qcompare_antisym a b). by destruct (a ?= b)%Q.
Qed.

Lemma round_half_even_cases (y : Q) :
  round_half_even y = Qfloor y ∧ (y - inject_Z (Qfloor y) <= 1 # 2)%Q
  ∨ round_half_even y = (Qfloor y + 1)%Z ∧ (1 # 2 <= y - inject_Z (Qfloor y))%Q.
Proof.
  unfold round_half_even.
  destruct (Qcompare_spec (y - inject_Z (Qfloor y)) (1 # 2)) as [He | Hl | Hg].
  - destruct (Z.even (Qfloor y)); [left | right]; split; try done; lra.
  - left. split; [done | lra].
  - right. split; [done | lra].
Qed.

Lemma round_half_even_lower (k : Z) (y : Q) :
  (inject_Z k <= y)%Q → (k ≤ round_half_even y)%Z.
Proof.
  intros Hk. apply Qfloor_resp_le in Hk. rewrite Qfloor_Z in Hk.
  destruct (round_half_even_cases y) as [[-> _] | [-> _]]; lia.
Qed.

Lemma round_half_even_upper (k : Z) (y : Q) :
  (y <= inject_Z k)%Q → (round_half_even y ≤ k)%Z.
Proof.
  intros Hk. pose proof (Qfloor_resp_le _ _ Hk) as Hf. rewrite Qfloor_Z in Hf.
  destruct (round_half_even_cases y) as [[-> _] | [-> Hhalf]]; [lia|].
  destruct (Z.eq_dec (Qfloor y) k) as [He | Hne]; [|lia].
  exfalso. rewrite He in Hhalf. revert Hk Hhalf.
  generalize (inject_Z k). intros z Hk Hhalf. lra.
Qed.

Lemma round4_lower (k : Z) (x : Q) :
  (k # 10000 <= x)%Q → (k # 10000 <= round4 x)%Q.
Proof.
  intros Hk. unfold round4.
  assert (Hk' : (inject_Z k <= x * 10000)%Q).
  { unfold Qle in *. simpl in *. lia. }
  apply round_half_even_lower in Hk'.
  unfold Qle. simpl. lia.
Qed.

Lemma round4_upper (k : Z) (x : Q) :
  (x <= k # 10000)%Q → (round4 x <= k # 10000)%Q.
Proof.
  intros Hk. unfold round4.
  assert (Hk' : (x * 10000 <= inject_Z k)%Q).
  { unfold Qle in *. simpl in *. lia. }
  apply round_half_even_upper in Hk'.
  unfold Qle. simpl. lia.
Qed.

Lemma py_max_ge_r (a b : Q) : (b <= py_max a b)%Q.
Proof. rewrite py_max_Qmax. apply Q.le_max_r. Qed.

Lemma py_min_range (a : Q) : (0 <= a)%Q → (0 <= py_min a 1 <= 1)%Q.
Proof.
  intros Ha. rewrite py_min_Qmin. split.
  - apply Q.min_glb; [exact Ha | discriminate].
  - apply Q.le_min_r.
Qed.

Lemma price_score_range (p : Q) : (0 <= 1 / (1 + py_max p 0) <= 1)%Q.
Proof.
  pose proof (py_max_ge_r p 0) as Hp. revert Hp.
  generalize (py_max p 0). intros m Hm.
  assert (Hd : (0 < 1 + m)%Q) by lra.
  split.
  - apply Qle_shift_div_l; [exact Hd | lra].
  - apply Qle_shift_div_r; [exact Hd | lra].
Qed.

Lemma stock_range (q : Z) :
  (0 ≤ q)%Z → (0 <= py_min (inject_Z q / 10000) 1 <= 1)%Q.
Proof.
  intros Hq. apply py_min_range.
  apply Qle_shift_div_l; [reflexivity|].
  rewrite Qmult_0_l. unfold Qle. simpl. lia.
Qed.

Lemma fallback_score_range (doc : doc_t) (coverage : Q) :
  (0 <= coverage <= 1)%Q → quantity_nonneg doc →
  (78 # 100 <= _recommendation_score 1 1 doc coverage <= 1)%Q.
Proof.
  intros Hcov Hq. unfold _recommendation_score.
  assert (Hs : (0 <= py_min (inject_Z (default 0%Z (d_quantity_available doc)) / 10000) 1
                <= 1)%Q).
  { apply stock_range. destruct (d_quantity_available doc) as [q|] eqn:Hd; simpl.
    - by apply Hq.
    - lia. }
  pose proof (price_score_range (default 0%Q (d_unit_price doc))) as Hp.
  revert Hs Hp.
  generalize (py_min (inject_Z (default 0%Z (d_quantity_available doc)) / 10000) 1).
  generalize (1 / (1 + py_max (default 0%Q (d_unit_price doc)) 0))%Q.
  intros price_score stock Hs Hp.
  change (1 / py_max 1 (1 # 10000))%Q with (1 / 1)%Q.
  assert (Hone : (1 / 1 == 1)%Q) by reflexivity.
  split.
  - apply Qle_trans with (7800 # 10000)%Q; [discriminate|].
    apply round4_lower. rewrite Hone. lra.
  - apply Qle_trans with (10000 # 10000)%Q; [|discriminate].
    apply round4_upper. rewrite Hone. lra.
Qed.

(** C10. With a catalog whose quantities are not negative, every result
    of the fallback search has a [recommendation_score] between 0.78 and 1:
    the relevance term is 0.78 and the other three terms add between 0 and
    0.22.  On a catalog whose documents carry all their keys the search does
    return a list. *)
Theorem fallback_scores_in_range (self : CatalogService) (intent : QueryIntent) :
  Forall quantity_nonneg (_fallback_docs self) →
  (∀ results, _fallback_search self intent = Ok results →
     Forall (λ r, (78 # 100 <= recommendation_score r <= 1)%Q) results)
  ∧ (Forall doc_complete (_fallback_docs self) →
     ∃ results, _fallback_search self intent = Ok results).
Proof.
  intros Hdocs. split; [|apply _fallback_search_total].
  intros results H. apply _fallback_search_admits in H.
  eapply Forall_impl; [exact H|].
  intros r (doc & Hin & Hadm).
  destruct Hadm as (_ & _ & _ & _ & _ & _ & _ & ->).
  apply fallback_score_range; [apply _keyword_coverage_range|].
  revert doc Hin. by apply Forall_forall.
Qed.

Lemma fallback_scores_in_range_witness :
  Forall quantity_nonneg Sample.catalog
  ∧ ∃ results,
      _fallback_search Sample.fresh Sample.intent = Ok results
      ∧ recommendation_score <$> results = [(8880 # 10000)%Q; (8840 # 10000)%Q]
      ∧ Forall (λ r, (78 # 100 <= recommendation_score r <= 1)%Q) results.
Proof.
  assert (Hq : Forall quantity_nonneg Sample.catalog).
  { repeat constructor; intros q [= <-]; lia. }
  split; [exact Hq|].
  destruct (fallback_scores_in_range Sample.fresh Sample.intent Hq)
    as [Hrange Htotal].
  destruct Htotal as [results Hres].
  { repeat constructor; simpl; eauto. }
  exists results. split; [exact Hres|]. split; [|exact (Hrange results Hres)].
  revert Hres. vm_compute. intros [= <-]. reflexivity.
Defined.

(** ** Remote search *)

Lemma py_max_seq_upper (x : Q) (xs : list Q) :
  (x <= py_max_seq x xs)%Q ∧ Forall (λ y, (y <= py_max_seq x xs)%Q) xs.
Proof.
  unfold py_max_seq. revert x. induction xs as [|y xs IH]; intros x; simpl.
  - split; [apply Qle_refl | constructor].
  - destruct (IH (py_max x y)) as [Hhead Htail].
    assert (Hx : (x <= py_max x y)%Q) by (rewrite py_max_Qmax; apply Q.le_max_l).
    pose proof (py_max_ge_r x y) as Hy.
    split; [exact (Qle_trans _ _ _ Hx Hhead)|].
    constructor; [exact (Qle_trans _ _ _ Hy Hhead) | exact Htail].
Qed.

Lemma py_max_seq_attained (x : Q) (xs : list Q) :
  py_max_seq x xs ∈ x :: xs.
Proof.
  unfold py_max_seq. revert x. induction xs as [|y xs IH]; intros x; simpl.
  - by left.
  - specialize (IH (py_max x y)). apply elem_of_cons in IH as [-> | IH].
    + unfold py_max. destruct (Qltb x y).
      * right. by left.
      * by left.
    + right. by right.
Qed.

Lemma top_score_of_max (first : hit_t) (others : list hit_t) :
  Forall (λ hit, (score_or 1 hit <= top_score_of first others)%Q) (first :: others)
  ∧ Exists (λ hit, top_score_of first others = score_or 1 hit) (first :: others).
Proof.
  unfold top_score_of.
  destruct (py_max_seq_upper (score_or 1 first) (score_or 1 <$> others))
    as [Hfirst Hothers].
  split.
  - constructor; [exact Hfirst|].
    apply Forall_forall. intros hit Hin.
    rewrite Forall_forall in Hothers. apply Hothers.
    apply list_elem_of_fmap. by exists hit.
  - pose proof (py_max_seq_attained (score_or 1 first) (score_or 1 <$> others)) as H.
    apply elem_of_cons in H as [H | H].
    + by left.
    + right. apply list_elem_of_fmap in H as (hit & Heq & Hin).
      apply Exists_exists. by exists hit.
Qed.

Lemma hit_result_score (intent : QueryIntent) (top_score : Q) (hit : hit_t)
    (r : ProductResult) :
  hit_result intent top_score hit = Ok r →
  recommendation_score r
  = _recommendation_score (score_or 0 hit) top_score
      (default empty_doc (h_source hit))
      (_keyword_coverage (keywords intent) (default empty_doc (h_source hit))).
Proof.
  unfold hit_result. intros H. by apply make_result_fields in H as (_ & _ & _ & H).
Qed.

Lemma map_hits_scores (intent : QueryIntent) (top_score : Q) (hits : list hit_t)
    (mapped : list ProductResult) :
  map_hits intent top_score hits = Ok mapped →
  Forall2 (λ hit r,
             recommendation_score r
             = _recommendation_score (score_or 0 hit) top_score
                 (default empty_doc (h_source hit))
                 (_keyword_coverage (keywords intent)
                    (default empty_doc (h_source hit))))
          hits mapped.
Proof.
  revert mapped. induction hits as [|hit hits IH]; simpl; intros mapped H.
  - injection H as <-. constructor.
  - apply except_bind_Ok in H as (r & Hr & H).
    apply except_bind_Ok in H as (rs & Hrs & H). injection H as <-.
    constructor; [by apply hit_result_score | by apply IH].
Qed.

Lemma map_hits_total (intent : QueryIntent) (top_score : Q) (hits : list hit_t) :
  Forall hit_complete hits → ∃ mapped, map_hits intent top_score hits = Ok mapped.
Proof.
  induction 1 as [|hit hits (doc & Hsrc & Hdoc) _ [mapped IH]]; simpl; [by eexists|].
  unfold hit_result. rewrite Hsrc. simpl.
  destruct (make_result_total doc
              (_recommendation_score (score_or 0 hit) top_score doc
                 (_keyword_coverage (keywords intent) doc))
              (_build_reason doc
                 (_recommendation_score (score_or 0 hit) top_score doc
                    (_keyword_coverage (keywords intent) doc))
                 (_keyword_coverage (keywords intent) doc)) Hdoc) as [r ->].
  rewrite IH. simpl. by eexists.
Qed.

Lemma map_hits_keywords (intent intent' : QueryIntent) (top_score : Q)
    (hits : list hit_t) :
  keywords intent' = keywords intent →
  map_hits intent' top_score hits = map_hits intent top_score hits.
Proof.
  intros Hk. induction hits as [|hit hits IH]; simpl; [done|].
  unfold hit_result. by rewrite Hk, IH.
Qed.

(** C4, as the code has it.  When the remote engine answers with at least
    one hit, the returned list is the list of mapped hits sorted by
    descending [recommendation_score], whatever sort preference the intent
    asks for: two intents with the same keywords that receive the same hits
    get the same list.  The normaliser [top_score] is the largest, over the
    hits, of the engine score with a missing or zero score counted as 1.
    When every hit carries a complete source the path does return a list. *)
Theorem remote_results_ranked
    (client : es_client) (index : string) (intent : QueryIntent)
    (response : es_response) (first : hit_t) (others : list hit_t) :
  c_search client (build_request index intent) = Ok response →
  resp_hits response = first :: others →
  (Forall (λ hit, (score_or 1 hit <= top_score_of first others)%Q) (first :: others)
   ∧ Exists (λ hit, top_score_of first others = score_or 1 hit) (first :: others))
  ∧ (∀ results, _search_elasticsearch client index intent = Ok results →
       StronglySorted score_ge results
       ∧ ∃ mapped,
           map_hits intent (top_score_of first others) (first :: others) = Ok mapped
           ∧ results ≡ₚ mapped
           ∧ Forall2 (λ hit r,
                        recommendation_score r
                        = _recommendation_score (score_or 0 hit)
                            (top_score_of first others)
                            (default empty_doc (h_source hit))
                            (_keyword_coverage (keywords intent)
                               (default empty_doc (h_source hit))))
                     (first :: others) mapped)
  ∧ (Forall hit_complete (first :: others) →
     ∃ results, _search_elasticsearch client index intent = Ok results)
  ∧ (∀ intent', keywords intent' = keywords intent →
       c_search client (build_request index intent') = Ok response →
       _search_elasticsearch client index intent'
       = _search_elasticsearch client index intent).
Proof.
  intros Hresp Hhits.
  assert (Hrun : ∀ intent0, keywords intent0 = keywords intent →
            c_search client (build_request index intent0) = Ok response →
            _search_elasticsearch client index intent0
            = (mapped ← map_hits intent (top_score_of first others) (first :: others);
               mret (sort_by_score_desc mapped))).
  { intros intent0 Hk H0. unfold _search_elasticsearch.
    rewrite H0. cbn -[map_hits top_score_of sort_by_score_desc]. rewrite Hhits.
    rewrite (map_hits_keywords intent intent0 _ _ Hk). reflexivity. }
  split; [apply top_score_of_max|]. split; [|split].
  - intros results H. rewrite (Hrun intent eq_refl Hresp) in H.
    apply except_bind_Ok in H as (mapped & Hmapped & H). injection H as <-.
    split; [apply sort_by_score_desc_sorted|].
    exists mapped. split; [exact Hmapped|].
    split; [apply sort_by_score_desc_perm | by apply map_hits_scores].
  - intros Hcomplete. rewrite (Hrun intent eq_refl Hresp).
    destruct (map_hits_total intent (top_score_of first others) _ Hcomplete)
      as [mapped ->].
    simpl. by eexists.
  - intros intent' Hk H'.
    by rewrite (Hrun intent' Hk H'), (Hrun intent eq_refl Hresp).
Qed.

Lemma remote_results_ranked_witness :
  ∃ results,
    _search_elasticsearch (Sample.client Sample.two_hits) "digikey_products"
      Sample.cheap_resistors = Ok results
    ∧ id <$> results = ["res-1"; "cable-1"]
    ∧ StronglySorted score_ge results.
Proof.
  destruct (remote_results_ranked (Sample.client Sample.two_hits)
              "digikey_products" Sample.cheap_resistors
              (mkResponse [Sample.hit_resistor; Sample.hit_cable])
              Sample.hit_resistor [Sample.hit_cable] eq_refl eq_refl)
    as (_ & Hsorted & Htotal & _).
  destruct Htotal as [results Hres].
  { repeat constructor; eexists; (split; [reflexivity|]);
      repeat split; simpl; eauto. }
  exists results. split; [exact Hres|].
  split; [|exact (proj1 (Hsorted results Hres))].
  revert Hres. vm_compute. intros [= <-]. reflexivity.
Defined.

(** C4 as stated fails on two hits with the engine scores 0.5 and 0: the
    largest engine score is 0.5, but the zero score counts as 1 in the
    normaliser, so [top_score] is 1 and the first hit scores 0.5598, where
    normalising by 0.5 would give 0.9498. *)
Lemma remote_top_score_counterexample :
  top_score_of Sample.hit_resistor [Sample.hit_cable] = 1%Q
  ∧ max_engine_score Sample.hit_resistor [Sample.hit_cable] = (1 # 2)%Q
  ∧ ¬ (top_score_of Sample.hit_resistor [Sample.hit_cable]
       == max_engine_score Sample.hit_resistor [Sample.hit_cable])%Q
  ∧ (∃ results,
       _search_elasticsearch (Sample.client Sample.two_hits) "digikey_products"
         Sample.cheap_resistors = Ok results
       ∧ recommendation_score <$> results = [(5598 # 10000)%Q; (580 # 10000)%Q])
  ∧ _recommendation_score (1 # 2)
      (max_engine_score Sample.hit_resistor [Sample.hit_cable])
      (Sample.product "res-1" "Resistor 10k" (1 # 100) 0)
      (_keyword_coverage "resistor"
         (Sample.product "res-1" "Resistor 10k" (1 # 100) 0))
    = (9498 # 10000)%Q.
Proof.
  split; [vm_compute; reflexivity|]. split; [vm_compute; reflexivity|].
  split; [vm_compute; discriminate|].
  split; [|vm_compute; reflexivity].
  eexists. split; vm_compute; reflexivity.
Qed.

(** * Further properties of the service *)

(** ** Connection and startup *)

Lemma connect_loop_spec (attempt : nat → except es_client) (k n : nat) :
  match connect_loop attempt k n with
  | Some client =>
      ∃ i, (k ≤ i < k + n)%nat ∧ attempt i = Ok client ∧ c_ping client = Ok true
           ∧ ∀ j, (k ≤ j < i)%nat → ¬ attempt_live (attempt j)
  | None => ∀ i, (k ≤ i < k + n)%nat → ¬ attempt_live (attempt i)
  end.
Proof.
  revert k. induction n as [|n IH]; intros k; simpl.
  - intros i Hi. lia.
  - assert (Hdead : ¬ attempt_live (attempt k) →
      match connect_loop attempt (S k) n with
      | Some client =>
          ∃ i, (k ≤ i < k + S n)%nat ∧ attempt i = Ok client
               ∧ c_ping client = Ok true
               ∧ ∀ j, (k ≤ j < i)%nat → ¬ attempt_live (attempt j)
      | None => ∀ i, (k ≤ i < k + S n)%nat → ¬ attempt_live (attempt i)
      end).
    { intros Hk. specialize (IH (S k)).
      destruct (connect_loop attempt (S k) n) as [client|].
      - destruct IH as (i & Hi & Hok & Hping & Hbefore).
        exists i. split; [lia|]. split; [exact Hok|]. split; [exact Hping|].
        intros j Hj. destruct (decide (j = k)) as [-> | Hne]; [exact Hk|].
        apply Hbefore. lia.
      - intros i Hi. destruct (decide (i = k)) as [-> | Hne]; [exact Hk|].
        apply IH. lia. }
    destruct (attempt k) as [client|e] eqn:Hk.
    + destruct (c_ping client) as [[|]|e] eqn:Hping.
      * exists k. split; [lia|]. split; [exact Hk|]. split; [exact Hping|].
        intros j Hj. lia.
      * apply Hdead. intros (c & [= <-] & Hc). congruence.
      * apply Hdead. intros (c & [= <-] & Hc). congruence.
    + apply Hdead. intros (c & Hc & _). discriminate.
Qed.

(** X1. [_connect_with_retry] makes at most [max_attempts] attempts and
    returns the client of the first attempt whose client answers the ping
    with [True]; it returns [None] exactly when none of these attempts does,
    in particular when [max_attempts] is zero or negative.  Attempts that
    raise, whose ping raises or answers [False], are passed over. *)
Theorem _connect_with_retry_first_live
    (attempt : nat → except es_client) (max_attempts : Z) :
  match _connect_with_retry attempt max_attempts with
  | Some client =>
      ∃ i, (Z.of_nat i < max_attempts)%Z
           ∧ attempt i = Ok client ∧ c_ping client = Ok true
           ∧ ∀ j, (j < i)%nat → ¬ attempt_live (attempt j)
  | None => ∀ i, (Z.of_nat i < max_attempts)%Z → ¬ attempt_live (attempt i)
  end.
Proof.
  unfold _connect_with_retry.
  pose proof (connect_loop_spec attempt 0 (Z.to_nat max_attempts)) as H.
  destruct (connect_loop attempt 0 (Z.to_nat max_attempts)) as [client|].
  - destruct H as (i & Hi & Hok & Hping & Hbefore).
    exists i. split; [lia|]. split; [exact Hok|]. split; [exact Hping|].
    intros j Hj. apply Hbefore. lia.
  - intros i Hi. apply H. lia.
Qed.


(** X2. In every state the service can reach, remote mode comes with a
    client: [_mode] is "elasticsearch" only when [_client] is set, so the
    second test of [search], [self._client is None], never decides. *)
Theorem remote_mode_has_client (self : CatalogService) :
  reachable self → _mode self = "elasticsearch" → is_Some (_client self).
Proof.
  induction 1 as [index attempts docs | attempt self _ IH | self intent _ IH].
  - discriminate.
  - unfold initialize.
    destruct (_connect_with_retry _ _) as [client|]; [|discriminate].
    destruct (_ensure_index _ _); [|by eexists].
    destruct (_seed_if_empty _ _ _); by eexists.
  - by rewrite search_keeps_service.
Qed.

Lemma remote_mode_has_client_witness :
  is_Some (_client (Sample.live Sample.no_hits)).
Proof.
  apply remote_mode_has_client; [|reflexivity].
  apply reach_initialize, reach_init.
Defined.

(** X3. A restart against an index that exists and holds documents writes
    nothing: with one attempt allowed, a client that answers the ping, says
    the index exists and counts at least one document, [initialize] returns
    no warning and switches to remote mode, whatever creating an index or a
    bulk insert would do and whatever the catalog holds. *)
Theorem initialize_on_populated_index
    (self : CatalogService) (attempt : nat → except es_client)
    (client : es_client) (count : Z) :
  (1 ≤ connect_attempts self)%Z →
  attempt 0%nat = Ok client →
  c_ping client = Ok true →
  c_indices_exists client (es_index self) = Ok true →
  c_count client (es_index self) = Ok count →
  (0 < count)%Z →
  initialize attempt self
  = (mkService (es_index self) (connect_attempts self) (Some client)
       "elasticsearch" (_fallback_docs self), Ok None).
Proof.
  intros Hattempts Hfirst Hping Hexists Hcount Hpos.
  unfold initialize, _connect_with_retry.
  destruct (Z.to_nat (connect_attempts self)) as [|n] eqn:Hn; [lia|].
  simpl. rewrite Hfirst, Hping.
  unfold _ensure_index, _seed_if_empty. simpl.
  rewrite Hexists. simpl. rewrite Hcount. simpl.
  destruct (Z.ltb_spec 0 count); [reflexivity | lia].
Qed.

Lemma initialize_on_populated_index_witness :
  initialize
    (λ _, Ok (mkClient (Ok true) (λ _, Ok true)
                (λ _, Err (TransportError "create refused"))
                (λ _, Ok 4%Z)
                (λ _, Err (TransportError "bulk refused"))
                Sample.no_hits))
    (__init__ "digikey_products" 5 [empty_doc])
  = (mkService "digikey_products" 5
       (Some (mkClient (Ok true) (λ _, Ok true)
                (λ _, Err (TransportError "create refused"))
                (λ _, Ok 4%Z)
                (λ _, Err (TransportError "bulk refused"))
                Sample.no_hits))
       "elasticsearch" [empty_doc], Ok None).
Proof.
  apply (initialize_on_populated_index
           (__init__ "digikey_products" 5 [empty_doc]) _ _ 4);
    [simpl; lia | reflexivity | reflexivity | reflexivity | reflexivity | lia].
Defined.



(** ** Dispatch *)

(** X5. [search] returns no warning exactly when the results are those of
    the remote path: the service is in remote mode, has a client, and the
    remote search returned them.  Every other returned pair carries a
    warning. *)
Theorem search_no_warning_iff_remote
    (self : CatalogService) (intent : QueryIntent) (results : list ProductResult) :
  snd (search self intent) = Ok (results, None)
  ↔ _mode self = "elasticsearch"
    ∧ ∃ client, _client self = Some client
                ∧ _search_elasticsearch client (es_index self) intent = Ok results.
Proof.
  unfold search. split.
  - destruct (bool_decide (_mode self ≠ "elasticsearch")) eqn:Hmode.
    + simpl. destruct (_fallback_search self intent); discriminate.
    + apply bool_decide_eq_false in Hmode.
      destruct (_client self) as [client|].
      * destruct (_search_elasticsearch client (es_index self) intent) as [rs|e] eqn:Hr;
          simpl.
        -- intros [= <-]. split.
           ++ by destruct (decide (_mode self = "elasticsearch")).
           ++ by exists client.
        -- destruct (_fallback_search self intent); discriminate.
      * simpl. destruct (_fallback_search self intent); discriminate.
  - intros (Hmode & client & Hclient & Hremote).
    rewrite Hclient, Hremote.
    rewrite bool_decide_eq_false_2; [reflexivity|]. by intros H.
Qed.

(** ** Seeding *)

Lemma except_bind_Err {A B} (m : except A) (k : A → except B) (e : exn) :
  m ≫= k = Err e → m = Err e ∨ ∃ a, m = Ok a ∧ k a = Err e.
Proof.
  destruct m as [a|e']; intros H.
  - right. by exists a.
  - left. simpl in H. by injection H as ->.
Qed.

Lemma getitem_Err {A} (key : string) (field : option A) (e : exn) :
  getitem key field = Err e → field = None ∧ e = KeyError key.
Proof. destruct field; [discriminate | by intros [= <-]]. Qed.

(** The actions built for a catalog, and when building them raises. *)
Lemma seed_actions_spec (index : string) (docs : list doc_t) :
  (∀ actions, seed_actions index docs = Ok actions →
     Forall2 (λ doc action,
                a_index action = index
                ∧ d_id doc = Some (a_id action)
                ∧ a_source action
                  = set_spec_blob (blob_of_specs (d_key_specs doc)) doc)
             docs actions)
  ∧ ((∃ actions, seed_actions index docs = Ok actions)
     ↔ Forall (λ doc, is_Some (d_id doc)) docs)
  ∧ (∀ e, seed_actions index docs = Err e → e = KeyError "id").
Proof.
  induction docs as [|doc docs (IHshape & IHok & IHerr)]; simpl.
  - split; [|split].
    + intros actions [= <-]. constructor.
    + split; [constructor | by eexists].
    + discriminate.
  - split; [|split].
    + intros actions H.
      apply except_bind_Ok in H as (doc_id & Hid & H).
      apply except_bind_Ok in H as (rest & Hrest & H). injection H as <-.
      constructor; [|by apply IHshape].
      simpl. split; [reflexivity|]. split.
      * simpl in Hid. destruct (d_id doc); [|discriminate]. by injection Hid as ->.
      * by rewrite _spec_blob_from_doc_specs.
    + split.
      * intros [actions H].
        apply except_bind_Ok in H as (doc_id & Hid & H).
        apply except_bind_Ok in H as (rest & Hrest & H).
        constructor; [|apply IHok; by exists rest].
        simpl in Hid. destruct (d_id doc); [by eexists | discriminate].
      * intros Hall. apply Forall_cons in Hall as [[doc_id Hid] Hall].
        apply IHok in Hall as [rest Hrest].
        rewrite Hid, Hrest. simpl. by eexists.
    + intros e H. apply except_bind_Err in H as [H | (doc_id & _ & H)].
      * by apply getitem_Err in H as [_ ->].
      * apply except_bind_Err in H as [H | (rest & _ & H)]; [by apply IHerr|].
        discriminate.
Qed.

(** X6. The actions [_seed_if_empty] builds: one per catalog document, in
    catalog order, for the service's index, with the document's id as
    [_id], and as [_source] the document with ["spec_blob"] added and every
    other key as it was.  They exist exactly when every document has an
    ["id"]; otherwise the loop raises [KeyError('id')]. *)
Theorem seed_actions_shape (index : string) (docs : list doc_t) :
  (∀ actions, seed_actions index docs = Ok actions →
     Forall2 (λ doc action,
                a_index action = index
                ∧ d_id doc = Some (a_id action)
                ∧ a_source action
                  = set_spec_blob (blob_of_specs (d_key_specs doc)) doc)
             docs actions)
  ∧ ((∃ actions, seed_actions index docs = Ok actions)
     ↔ Forall (λ doc, is_Some (d_id doc)) docs)
  ∧ (∀ e, seed_actions index docs = Err e → e = KeyError "id").
Proof. exact (seed_actions_spec index docs). Qed.

(** X7. [_seed_if_empty] writes only into an empty index.  When the index
    counts at least one document nothing is built or sent, whatever the
    catalog holds.  When it counts none and the catalog is empty nothing is
    sent either.  When it counts none and every document has an id, the
    result is that of one bulk call with one action per document.  A
    document without an id makes the seeding raise [KeyError('id')], and no
    bulk call decides the result. *)
Theorem _seed_if_empty_cases
    (client : es_client) (index : string) (docs : list doc_t) (count : Z) :
  c_count client index = Ok count →
  ((0 < count)%Z → _seed_if_empty client index docs = Ok tt)
  ∧ ((count ≤ 0)%Z → docs = [] → _seed_if_empty client index docs = Ok tt)
  ∧ ((count ≤ 0)%Z → docs ≠ [] → Forall (λ doc, is_Some (d_id doc)) docs →
     ∃ actions, seed_actions index docs = Ok actions
                ∧ length actions = length docs
                ∧ _seed_if_empty client index docs = c_bulk client actions)
  ∧ ((count ≤ 0)%Z → Exists (λ doc, d_id doc = None) docs →
     _seed_if_empty client index docs = Err (KeyError "id")).
Proof.
  intros Hcount. unfold _seed_if_empty. rewrite Hcount. simpl.
  destruct (seed_actions_spec index docs) as (Hshape & Hok & Herr).
  split; [|split; [|split]].
  - intros Hpos. destruct (Z.ltb_spec 0 count); [reflexivity | lia].
  - intros Hzero ->. destruct (Z.ltb_spec 0 count); [lia | reflexivity].
  - intros Hzero Hne Hids. destruct (Z.ltb_spec 0 count); [lia|].
    apply Hok in Hids as [actions Hactions].
    exists actions. split; [exact Hactions|].
    pose proof (Forall2_length _ _ _ (Hshape actions Hactions)) as Hlen.
    split; [by symmetry|].
    rewrite Hactions. simpl.
    destruct actions as [|action actions]; [|reflexivity].
    destruct docs; [contradiction | discriminate].
  - intros Hzero Hmissing. destruct (Z.ltb_spec 0 count); [lia|].
    destruct (seed_actions index docs) as [actions|e] eqn:Hactions.
    + exfalso. assert (Hall : Forall (λ doc, is_Some (d_id doc)) docs)
        by (apply Hok; by exists actions).
      apply Exists_exists in Hmissing as (doc & Hin & Hnone).
      rewrite Forall_forall in Hall. specialize (Hall doc Hin).
      rewrite Hnone in Hall. by destruct Hall.
    + simpl. by rewrite (Herr e eq_refl).
Qed.

Lemma _seed_if_empty_cases_witness :
  _seed_if_empty
    (mkClient (Ok true) (λ _, Ok true) (λ _, Ok tt) (λ _, Ok 7%Z)
       (λ _, Err (TransportError "bulk refused")) Sample.no_hits)
    "digikey_products" [empty_doc]
  = Ok tt.
Proof.
  destruct (_seed_if_empty_cases
              (mkClient (Ok true) (λ _, Ok true) (λ _, Ok tt) (λ _, Ok 7%Z)
                 (λ _, Err (TransportError "bulk refused")) Sample.no_hits)
              "digikey_products" [empty_doc] 7 eq_refl) as [Hpopulated _].
  apply Hpopulated. lia.
Defined.

(** ** Fallback search: admission, ranking and failures *)

Lemma build_request_filters (index : string) (intent : QueryIntent) (doc : doc_t) :
  Forall (clause_holds doc) (rq_filter (build_request index intent))
  ↔ (in_stock_only intent = true →
     ∃ q, d_quantity_available doc = Some q ∧ (0 < q)%Z)
    ∧ (∀ m, min_quantity intent = Some m →
       ∃ q, d_quantity_available doc = Some q ∧ (m ≤ q)%Z)
    ∧ (∀ p, max_unit_price intent = Some p →
       ∃ price, d_unit_price doc = Some price ∧ (price <= p)%Q).
Proof.
  unfold build_request. simpl.
  destruct (in_stock_only intent), (min_quantity intent) as [m|],
    (max_unit_price intent) as [p|]; simpl;
    rewrite ?Forall_cons, ?Forall_nil; simpl;
    intuition (simplify_eq; eauto).
Qed.

(** The loop body on a document whose ten result keys are present: it
    appends a result exactly when the document passes the token test and
    the three constraints of the intent. *)
Lemma fallback_candidate_appends (intent : QueryIntent) (doc : doc_t) :
  doc_complete doc →
  (∃ r, fallback_candidate intent (fallback_query_tokens (keywords intent)) doc
        = Ok (Some r))
  ↔ (fallback_query_tokens (keywords intent) ≠ ∅ →
     (0 < count_matches (fallback_query_tokens (keywords intent))
            (fallback_haystack doc))%nat)
    ∧ (in_stock_only intent = true →
       ∃ q, d_quantity_available doc = Some q ∧ (0 < q)%Z)
    ∧ (∀ m, min_quantity intent = Some m →
       ∃ q, d_quantity_available doc = Some q ∧ (m ≤ q)%Z)
    ∧ (∀ p, max_unit_price intent = Some p →
       ∃ price, d_unit_price doc = Some price ∧ (price <= p)%Q).
Proof.
  intros Hc. split.
  - intros [r Hr]. apply fallback_candidate_admits in Hr.
    destruct Hr as (Hq & Hp & _ & Htok & Hstock & Hmin & Hprice & _).
    split; [exact Htok|]. split; [|split].
    + intros Hin. eexists. split; [exact Hq | by apply Hstock].
    + intros m Hm. eexists. split; [exact Hq | by apply Hmin].
    + intros p Hmp. eexists. split; [exact Hp | by apply Hprice].
  - intros (Htok & Hstock & Hmin & Hprice).
    destruct (make_result_total doc
                (_recommendation_score 1 1 doc (_keyword_coverage (keywords intent) doc))
                (_build_reason doc
                   (_recommendation_score 1 1 doc
                      (_keyword_coverage (keywords intent) doc))
                   (_keyword_coverage (keywords intent) doc)) Hc) as [r Hr].
    exists r.
    destruct Hc as (_ & [m Hm] & [pn Hpn] & [nm Hnm] & [ds Hds] & _ & [p Hp]
                    & [q Hq] & _).
    unfold fallback_haystack in Htok.
    unfold fallback_candidate.
    rewrite Hm, Hpn, Hnm, Hds in *. rewrite Hq, Hp in *. simpl in *.
    assert (Htest : bool_decide (fallback_query_tokens (keywords intent) ≠ ∅)
                    && (count_matches (fallback_query_tokens (keywords intent))
                          (haystack_of m pn nm ds (default [] (d_tags doc))
                             (default [] (d_use_cases doc))) =? 0)%nat = false).
    { apply andb_false_iff.
      destruct (decide (fallback_query_tokens (keywords intent) ≠ ∅)) as [Hne | He].
      - right. apply Nat.eqb_neq. specialize (Htok Hne). lia.
      - left. by apply bool_decide_eq_false. }
    rewrite Htest.
    assert (Hs : (if in_stock_only intent then Ok (q <=? 0)%Z else Ok false)
                 = Ok false).
    { destruct (in_stock_only intent); [|reflexivity].
      destruct (Hstock eq_refl) as (q' & [= <-] & Hpos).
      f_equal. by apply Z.leb_gt. }
    simpl in Hs. unfold mret, except_ret. rewrite Hs. simpl.
    assert (Hmq : match min_quantity intent with
                  | Some mq => Ok (q <? mq)%Z
                  | None => Ok false
                  end = Ok false).
    { destruct (min_quantity intent) as [mq|]; [|reflexivity].
      destruct (Hmin mq eq_refl) as (q' & [= <-] & Hge).
      f_equal. by apply Z.ltb_ge. }
    rewrite Hmq. simpl.
    assert (Hmp : match max_unit_price intent with
                  | Some mp => Ok (Qltb mp p)
                  | None => Ok false
                  end = Ok false).
    { destruct (max_unit_price intent) as [mp|]; [|reflexivity].
      destruct (Hprice mp eq_refl) as (p' & [= <-] & Hle).
      f_equal. by apply Qltb_ge. }
    rewrite Hmp. simpl.
    unfold mret, except_ret in Hr. rewrite Hr. reflexivity.
Qed.

(** X8. The fallback loop and the remote request filter alike.  For a
    catalog document that carries its ten result keys, [_fallback_search]
    appends a result exactly when the document passes the token test and
    satisfies every range clause that [_search_elasticsearch] sends as
    [filter] for the same intent: [quantity_available > 0] for
    [in_stock_only], [>= min_quantity], [unit_price <= max_unit_price]. *)
Theorem fallback_filters_as_remote
    (index : string) (intent : QueryIntent) (doc : doc_t) :
  doc_complete doc →
  (∃ r, fallback_candidate intent (fallback_query_tokens (keywords intent)) doc
        = Ok (Some r))
  ↔ (fallback_query_tokens (keywords intent) ≠ ∅ →
     (0 < count_matches (fallback_query_tokens (keywords intent))
            (fallback_haystack doc))%nat)
    ∧ Forall (clause_holds doc) (rq_filter (build_request index intent)).
Proof.
  intros Hc. rewrite (fallback_candidate_appends intent doc Hc).
  by rewrite build_request_filters.
Qed.

Lemma fallback_filters_as_remote_witness :
  Forall (clause_holds (Sample.product "cable-1" "USB Cable" (3 # 2) 20000))
    (rq_filter (build_request "digikey_products" Sample.intent)).
Proof.
  apply (fallback_filters_as_remote "digikey_products" Sample.intent
           (Sample.product "cable-1" "USB Cable" (3 # 2) 20000)).
  - repeat split; simpl; eauto.
  - eexists. vm_compute. reflexivity.
Defined.

Lemma fallback_loop_keeps (intent : QueryIntent) (tokens : gset string)
    (docs : list doc_t) (found : list ProductResult) (doc : doc_t)
    (r : ProductResult) :
  fallback_loop intent tokens docs = Ok found →
  doc ∈ docs →
  fallback_candidate intent tokens doc = Ok (Some r) →
  r ∈ found.
Proof.
  revert found. induction docs as [|doc' docs IH]; intros found Hloop Hin Hr.
  - by apply elem_of_nil in Hin.
  - simpl in Hloop.
    apply except_bind_Ok in Hloop as (c & Hc & Hloop).
    apply except_bind_Ok in Hloop as (rs & Hrs & Hloop). injection Hloop as <-.
    apply elem_of_cons in Hin as [-> | Hin].
    + rewrite Hr in Hc. injection Hc as <-. by left.
    + specialize (IH rs Hrs Hin Hr). destruct c; [by right | exact IH].
Qed.

Lemma StronglySorted_take_drop {A} (R : A → A → Prop) (n : nat) (l : list A) :
  StronglySorted R l → Forall (λ x, Forall (R x) (drop n l)) (take n l).
Proof.
  intros Hs. revert n. induction Hs as [|x l Hs IH Hall]; intros [|n]; simpl;
    try constructor.
  - by apply Forall_drop.
  - apply IH.
Qed.





(** X10. No admissible product is left out, except by the limit.  On a
    catalog whose documents carry their ten result keys, a document that
    passes the token test and the request's range clauses has its result
    either in the returned list, or the list is full ([limit] items) and
    every returned item scores at least as high. *)
Theorem fallback_search_finds_eligible
    (self : CatalogService) (intent : QueryIntent) (doc : doc_t) :
  intent_valid intent →
  Forall doc_complete (_fallback_docs self) →
  doc ∈ _fallback_docs self →
  (fallback_query_tokens (keywords intent) ≠ ∅ →
   (0 < count_matches (fallback_query_tokens (keywords intent))
          (fallback_haystack doc))%nat) →
  Forall (clause_holds doc) (rq_filter (build_request (es_index self) intent)) →
  ∃ results r,
    _fallback_search self intent = Ok results
    ∧ fallback_admits intent doc r
    ∧ (r ∈ results
       ∨ (length results = Z.to_nat (limit intent)
          ∧ Forall (λ r', score_ge r' r) results)).
Proof.
  intros [Hlimit _] Hdocs Hin Htok Hfilter.
  destruct (fallback_loop_total intent (fallback_query_tokens (keywords intent))
              _ Hdocs) as [found Hloop].
  pose proof (proj1 (Forall_forall _ _) Hdocs doc Hin) as Hdoc.
  apply build_request_filters in Hfilter.
  destruct (proj2 (fallback_candidate_appends intent doc Hdoc)
              (conj Htok Hfilter)) as [r Hr].
  exists (slice_to (limit intent) (sort_by_score_desc found)), r.
  split; [unfold _fallback_search; by rewrite Hloop|].
  split; [by apply fallback_candidate_admits|].
  pose proof (fallback_loop_keeps _ _ _ _ _ _ Hloop Hin Hr) as Hfound.
  rewrite <- (sort_by_score_desc_perm found) in Hfound.
  pose proof (StronglySorted_take_drop score_ge (Z.to_nat (limit intent)) _
                (sort_by_score_desc_sorted found)) as Hbest.
  unfold slice_to. destruct (Z.leb_spec 0 (limit intent)); [|lia].
  rewrite <- (take_drop (Z.to_nat (limit intent)) (sort_by_score_desc found))
    in Hfound.
  apply elem_of_app in Hfound as [Hkept | Hdropped]; [by left|].
  right. split.
  - rewrite length_take. apply Nat.min_l.
    destruct (Nat.le_gt_cases (Z.to_nat (limit intent))
                (length (sort_by_score_desc found))) as [Hle | Hgt]; [exact Hle|].
    rewrite drop_ge in Hdropped by lia. by apply elem_of_nil in Hdropped.
  - eapply Forall_impl; [exact Hbest|]. simpl.
    intros r' Hr'. rewrite Forall_forall in Hr'. by apply Hr'.
Qed.

Lemma fallback_search_finds_eligible_witness :
  ∃ results r,
    _fallback_search Sample.fresh Sample.intent = Ok results
    ∧ fallback_admits Sample.intent
        (Sample.product "cable-1" "USB Cable" (3 # 2) 20000) r
    ∧ (r ∈ results
       ∨ (length results = 5%nat ∧ Forall (λ r', score_ge r' r) results)).
Proof.
  apply (fallback_search_finds_eligible Sample.fresh Sample.intent
           (Sample.product "cable-1" "USB Cable" (3 # 2) 20000)).
  - split; [simpl; lia|]. split; intros ? [=].
  - repeat constructor; simpl; eauto.
  - simpl. unfold Sample.catalog. do 3 apply list_elem_of_further. apply list_elem_of_here.
  - intros _. vm_compute. lia.
  - repeat constructor. simpl. exists 20000%Z. split; [reflexivity | lia].
Defined.

(** ** What the two search paths raise *)

Ltac key_listed :=
  unfold subscript_keys;
  repeat first [apply list_elem_of_here | apply list_elem_of_further].

Lemma make_result_Err (doc : doc_t) (score : Q) (reason : string) (e : exn) :
  make_result doc score reason = Err e →
  ∃ key, key ∈ subscript_keys ∧ e = KeyError key.
Proof.
  unfold make_result, subscript_keys. intros H.
  repeat (apply except_bind_Err in H as [H | (? & _ & H)];
          [apply getitem_Err in H as [_ ->]; eexists; split; [|reflexivity];
           key_listed|]).
  discriminate.
Qed.

Lemma fallback_candidate_Err (intent : QueryIntent) (tokens : gset string)
    (doc : doc_t) (e : exn) :
  fallback_candidate intent tokens doc = Err e →
  ∃ key, key ∈ subscript_keys ∧ e = KeyError key.
Proof.
  unfold fallback_candidate. intros H.
  assert (Hkey : ∀ key, key ∈ subscript_keys →
            ∃ key', key' ∈ subscript_keys ∧ KeyError key = KeyError key')
    by (intros key Hin; by exists key).
  do 4 (apply except_bind_Err in H as [H | (? & _ & H)];
        [apply getitem_Err in H as [_ ->]; apply Hkey; key_listed|]).
  destruct (_ && _); [discriminate|].
  apply except_bind_Err in H as [H | ([|] & _ & H)]; [| discriminate |].
  { destruct (in_stock_only intent); [|discriminate].
    apply except_bind_Err in H as [H | (? & _ & H)]; [|discriminate].
    apply getitem_Err in H as [_ ->]. apply Hkey. key_listed. }
  apply except_bind_Err in H as [H | ([|] & _ & H)]; [| discriminate |].
  { destruct (min_quantity intent); [|discriminate].
    apply except_bind_Err in H as [H | (? & _ & H)]; [|discriminate].
    apply getitem_Err in H as [_ ->]. apply Hkey. key_listed. }
  apply except_bind_Err in H as [H | ([|] & _ & H)]; [| discriminate |].
  { destruct (max_unit_price intent); [|discriminate].
    apply except_bind_Err in H as [H | (? & _ & H)]; [|discriminate].
    apply getitem_Err in H as [_ ->]. apply Hkey. key_listed. }
  apply except_bind_Err in H as [H | (? & _ & H)]; [|discriminate].
  by apply make_result_Err in H.
Qed.

Lemma fallback_loop_Err (intent : QueryIntent) (tokens : gset string)
    (docs : list doc_t) (e : exn) :
  fallback_loop intent tokens docs = Err e →
  ∃ key, key ∈ subscript_keys ∧ e = KeyError key.
Proof.
  induction docs as [|doc docs IH]; simpl; [discriminate|]. intros H.
  apply except_bind_Err in H as [H | (? & _ & H)];
    [by apply fallback_candidate_Err in H|].
  apply except_bind_Err in H as [H | (? & _ & H)]; [by apply IH | discriminate].
Qed.

Lemma _fallback_search_Err (self : CatalogService) (intent : QueryIntent) (e : exn) :
  _fallback_search self intent = Err e →
  ∃ key, key ∈ subscript_keys ∧ e = KeyError key.
Proof.
  unfold _fallback_search. intros H.
  apply except_bind_Err in H as [H | (? & _ & H)];
    [by apply fallback_loop_Err in H | discriminate].
Qed.

Lemma fallback_candidate_missing (intent : QueryIntent) (tokens : gset string)
    (doc : doc_t) :
  ¬ haystack_keys_present doc →
  ∃ e, fallback_candidate intent tokens doc = Err e.
Proof.
  intros Hmissing. unfold fallback_candidate.
  destruct (d_manufacturer doc) as [m|] eqn:Hm; [|by eexists].
  destruct (d_manufacturer_part_number doc) as [pn|] eqn:Hpn; [|by eexists].
  destruct (d_name doc) as [nm|] eqn:Hnm; [|by eexists].
  destruct (d_description doc) as [ds|] eqn:Hds; [|by eexists].
  exfalso. apply Hmissing. unfold haystack_keys_present.
  rewrite Hm, Hpn, Hnm, Hds. repeat split; by eexists.
Qed.

Lemma fallback_loop_missing (intent : QueryIntent) (tokens : gset string)
    (docs : list doc_t) :
  Exists (λ doc, ¬ haystack_keys_present doc) docs →
  ∃ e, fallback_loop intent tokens docs = Err e.
Proof.
  induction 1 as [doc docs Hmissing | doc docs _ [e IH]]; simpl.
  - destruct (fallback_candidate_missing intent tokens doc Hmissing) as [e ->].
    by exists e.
  - destruct (fallback_candidate intent tokens doc) as [c|e']; [|by eexists].
    rewrite IH. by exists e.
Qed.

(** X11. One catalog document without ["manufacturer"],
    ["manufacturer_part_number"], ["name"] or ["description"] makes the
    fallback search raise a [KeyError] for every intent, whether or not the
    document would match: the haystack is built before any test.  [search]
    then raises the same error, unless the remote path answered. *)
Theorem catalog_missing_key_breaks_fallback
    (self : CatalogService) (intent : QueryIntent) :
  Exists (λ doc, ¬ haystack_keys_present doc) (_fallback_docs self) →
  ∃ key,
    key ∈ subscript_keys
    ∧ _fallback_search self intent = Err (KeyError key)
    ∧ (snd (search self intent) = Err (KeyError key)
       ∨ ∃ results, snd (search self intent) = Ok (results, None)).
Proof.
  intros Hmissing.
  destruct (fallback_loop_missing intent (fallback_query_tokens (keywords intent))
              _ Hmissing) as [e Hloop].
  destruct (fallback_loop_Err _ _ _ _ Hloop) as (key & Hkey & ->).
  assert (Hfb : _fallback_search self intent = Err (KeyError key)).
  { unfold _fallback_search. by rewrite Hloop. }
  exists key. split; [exact Hkey|]. split; [exact Hfb|].
  unfold search.
  destruct (bool_decide (_mode self ≠ "elasticsearch")), (_client self) as [client|];
    cbn -[_fallback_search _search_elasticsearch];
    try (left; by rewrite Hfb).
  destruct (_search_elasticsearch client (es_index self) intent) as [results|exc];
    cbn -[_fallback_search].
  - right. by exists results.
  - left. by rewrite Hfb.
Qed.

Lemma catalog_missing_key_breaks_fallback_witness :
  ∃ key,
    _fallback_search
      (__init__ "digikey_products" 5 (Sample.catalog ++ [empty_doc])%list)
      Sample.intent
    = Err (KeyError key).
Proof.
  destruct (catalog_missing_key_breaks_fallback
              (__init__ "digikey_products" 5 (Sample.catalog ++ [empty_doc])%list)
              Sample.intent) as (key & _ & Hraise & _).
  - simpl. do 4 apply Exists_cons_tl. apply Exists_cons_hd.
    intros ([m Hm] & _). discriminate.
  - by exists key.
Defined.

(** X12. Whatever the engine does, no exception of the remote path reaches
    the caller of [search]: when [search] raises, the fallback search raised,
    and on documents whose values have the expected types that is a
    [KeyError] for one of the ten keys read with [doc[...]]. *)
Theorem search_raises_only_key_errors
    (self : CatalogService) (intent : QueryIntent) (e : exn) :
  snd (search self intent) = Err e →
  (∃ key, key ∈ subscript_keys ∧ e = KeyError key)
  ∧ _fallback_search self intent = Err e.
Proof.
  unfold search.
  assert (Hfb : ∀ warning,
            (results ← _fallback_search self intent;
             mret (results, Some warning))
            = (Err e : except (list ProductResult * option string)) →
            _fallback_search self intent = Err e).
  { intros warning H.
    apply except_bind_Err in H as [H | (? & _ & H)]; [exact H | discriminate]. }
  intros H.
  assert (H' : _fallback_search self intent = Err e).
  { destruct (bool_decide (_mode self ≠ "elasticsearch")),
      (_client self) as [client|];
      cbn -[_fallback_search _search_elasticsearch] in H; try by eapply Hfb.
    destruct (_search_elasticsearch client (es_index self) intent);
      cbn -[_fallback_search] in H; [discriminate | by eapply Hfb]. }
  split; [by apply _fallback_search_Err in H' | exact H'].
Qed.

Lemma search_raises_only_key_errors_witness :
  ∃ key,
    key ∈ subscript_keys
    ∧ snd (search (__init__ "digikey_products" 5 [empty_doc]) Sample.intent)
      = Err (KeyError key).
Proof.
  destruct (search_raises_only_key_errors
              (__init__ "digikey_products" 5 [empty_doc]) Sample.intent
              (KeyError "manufacturer") eq_refl) as [(key & Hkey & He) _].
  exists key. split; [exact Hkey|]. by rewrite <- He.
Defined.

(** X13. A query with significant tokens of which none occurs in any
    document gives the empty list, not an error and not the whole catalog:
    a document that fails the token test is skipped before any other key
    than the four text keys is read. *)
Theorem fallback_no_match_is_empty (self : CatalogService) (intent : QueryIntent) :
  fallback_query_tokens (keywords intent) ≠ ∅ →
  Forall (λ doc, haystack_keys_present doc
                 ∧ count_matches (fallback_query_tokens (keywords intent))
                     (fallback_haystack doc) = 0%nat)
         (_fallback_docs self) →
  _fallback_search self intent = Ok [].
Proof.
  intros Hne Hdocs. unfold _fallback_search.
  assert (Hloop : fallback_loop intent (fallback_query_tokens (keywords intent))
                    (_fallback_docs self) = Ok []).
  { induction Hdocs as [|doc docs [Hkeys Hcount] _ IH]; simpl; [reflexivity|].
    destruct Hkeys as ([m Hm] & [pn Hpn] & [nm Hnm] & [ds Hds]).
    unfold fallback_candidate, fallback_haystack in *.
    rewrite Hm, Hpn, Hnm, Hds in *. simpl in *. rewrite Hcount.
    rewrite bool_decide_eq_true_2 by exact Hne. simpl.
    by rewrite IH. }
  rewrite Hloop. simpl. unfold slice_to.
  by destruct (0 <=? limit intent)%Z; rewrite take_nil.
Qed.

Lemma fallback_no_match_is_empty_witness :
  _fallback_search
    (__init__ "digikey_products" 5
       [mkDoc None (Some "Acme") (Some "PN-1") (Some "Resistor 10k")
          (Some "bench part") None None None None None None None None None])
    (mkQueryIntent "oscilloscope" 5 true None None relevance)
  = Ok [].
Proof.
  apply fallback_no_match_is_empty.
  - vm_compute. discriminate.
  - repeat constructor; simpl; eauto.
Defined.

(** ** Remote search: one result per hit, ties, failures *)





Lemma make_result_missing (doc : doc_t) (score : Q) (reason : string) :
  ¬ doc_complete doc → ∃ e, make_result doc score reason = Err e.
Proof.
  intros Hmissing.
  destruct (make_result doc score reason) as [r|e] eqn:Hr; [|by exists e].
  exfalso. apply Hmissing. unfold make_result in Hr.
  apply except_bind_Ok in Hr as (? & H1 & Hr).
  apply except_bind_Ok in Hr as (? & H2 & Hr).
  apply except_bind_Ok in Hr as (? & H3 & Hr).
  apply except_bind_Ok in Hr as (? & H4 & Hr).
  apply except_bind_Ok in Hr as (? & H5 & Hr).
  apply except_bind_Ok in Hr as (? & H6 & Hr).
  apply except_bind_Ok in Hr as (? & H7 & Hr).
  apply except_bind_Ok in Hr as (? & H8 & Hr).
  apply except_bind_Ok in Hr as (? & H9 & Hr).
  apply except_bind_Ok in Hr as (? & H10 & Hr).
  unfold doc_complete.
  destruct (d_id doc); [|discriminate].
  destruct (d_manufacturer doc); [|discriminate].
  destruct (d_manufacturer_part_number doc); [|discriminate].
  destruct (d_name doc); [|discriminate].
  destruct (d_description doc); [|discriminate].
  destruct (d_category doc); [|discriminate].
  destruct (d_unit_price doc); [|discriminate].
  destruct (d_quantity_available doc); [|discriminate].
  destruct (d_product_url doc); [|discriminate].
  destruct (d_datasheet_url doc); [|discriminate].
  repeat split; by eexists.
Qed.

Lemma hit_result_incomplete (intent : QueryIntent) (top_score : Q) (hit : hit_t) :
  ¬ hit_complete hit →
  ∃ key, key ∈ subscript_keys ∧ hit_result intent top_score hit = Err (KeyError key).
Proof.
  intros Hmissing. unfold hit_result.
  assert (Hdoc : ¬ doc_complete (default empty_doc (h_source hit))).
  { intros Hc. apply Hmissing. unfold hit_complete.
    destruct (h_source hit) as [doc|]; [by exists doc|].
    destruct Hc as ([? H] & _). discriminate. }
  destruct (make_result_missing (default empty_doc (h_source hit))
              (_recommendation_score (score_or 0 hit) top_score
                 (default empty_doc (h_source hit))
                 (_keyword_coverage (keywords intent)
                    (default empty_doc (h_source hit))))
              (_build_reason (default empty_doc (h_source hit))
                 (_recommendation_score (score_or 0 hit) top_score
                    (default empty_doc (h_source hit))
                    (_keyword_coverage (keywords intent)
                       (default empty_doc (h_source hit))))
                 (_keyword_coverage (keywords intent)
                    (default empty_doc (h_source hit)))) Hdoc) as [e He].
  destruct (make_result_Err _ _ _ _ He) as (key & Hkey & ->).
  by exists key.
Qed.

Lemma map_hits_incomplete (intent : QueryIntent) (top_score : Q) (hits : list hit_t) :
  Exists (λ hit, ¬ hit_complete hit) hits →
  ∃ key, key ∈ subscript_keys ∧ map_hits intent top_score hits = Err (KeyError key).
Proof.
  induction 1 as [hit hits Hmissing | hit hits _ (key & Hkey & IH)]; simpl.
  - destruct (hit_result_incomplete intent top_score hit Hmissing)
      as (key & Hkey & ->).
    by exists key.
  - destruct (hit_result intent top_score hit) as [r|e] eqn:Hr.
    + rewrite IH. by exists key.
    + destruct (make_result_Err _ _ _ _ Hr) as (key' & Hkey' & ->).
      by exists key'.
Qed.

(** X15. A hit without a complete [_source] turns the whole remote answer
    into a fallback answer.  When the response holds a hit whose source
    lacks one of the ten keys read with [doc[...]] (or has no source),
    [_search_elasticsearch] raises a [KeyError] for such a key, no remote
    result is returned, and [search] answers from the fallback catalog with
    the warning that names the key. *)
Theorem incomplete_hit_falls_back
    (self : CatalogService) (client : es_client) (intent : QueryIntent)
    (response : es_response) :
  _mode self = "elasticsearch" →
  _client self = Some client →
  c_search client (build_request (es_index self) intent) = Ok response →
  Exists (λ hit, ¬ hit_complete hit) (resp_hits response) →
  ∃ key,
    key ∈ subscript_keys
    ∧ _search_elasticsearch client (es_index self) intent = Err (KeyError key)
    ∧ snd (search self intent)
      = (results ← _fallback_search self intent;
         mret (results, Some (failure_warning (KeyError key)))).
Proof.
  intros Hmode Hclient Hresp Hmissing.
  assert (Hremote : ∃ key, key ∈ subscript_keys
            ∧ _search_elasticsearch client (es_index self) intent
              = Err (KeyError key)).
  { unfold _search_elasticsearch. rewrite Hresp.
    cbn -[map_hits top_score_of sort_by_score_desc].
    destruct (resp_hits response) as [|first others] eqn:Hhits.
    - by apply Exists_nil in Hmissing.
    - destruct (map_hits_incomplete intent (top_score_of first others) _ Hmissing)
        as (key & Hkey & ->).
      by exists key. }
  destruct Hremote as (key & Hkey & Hremote).
  exists key. split; [exact Hkey|]. split; [exact Hremote|].
  unfold search. rewrite Hclient, Hremote.
  rewrite bool_decide_eq_false_2; [reflexivity|]. by intros H.
Qed.

Lemma incomplete_hit_falls_back_witness :
  ∃ results,
    snd (search
           (Sample.live (λ _, Ok (mkResponse [Sample.hit_cable; mkHit (Some 1%Q) None])))
           Sample.intent)
    = Ok (results,
          Some "Elasticsearch query failed ('id'); using fallback data.").
Proof.
  destruct (incomplete_hit_falls_back
              (Sample.live (λ _, Ok (mkResponse [Sample.hit_cable; mkHit (Some 1%Q) None])))
              (Sample.client (λ _, Ok (mkResponse [Sample.hit_cable; mkHit (Some 1%Q) None])))
              Sample.intent
              (mkResponse [Sample.hit_cable; mkHit (Some 1%Q) None])
              eq_refl eq_refl eq_refl) as (key & _ & Hremote & Hsearch).
  - apply Exists_cons_tl, Exists_cons_hd. intros (doc & Hsrc & _). discriminate.
  - assert (Hk : key = "id").
    { clear Hsearch. revert Hremote. vm_compute. intros H. by injection H. }
    subst key. rewrite Hsearch. eexists. vm_compute. reflexivity.
Defined.

(** ** The composite score: range on the remote path, monotonicity *)

Lemma relevance_range (raw top : Q) :
  (0 <= raw)%Q → (raw <= top)%Q → (0 <= raw / py_max top (1 # 10000) <= 1)%Q.
Proof.
  intros Hraw Hle. rewrite py_max_Qmax.
  pose proof (Q.le_max_l top (1 # 10000)) as Hm.
  pose proof (Q.le_max_r top (1 # 10000)) as Hp.
  revert Hm Hp. generalize (Qmax top (1 # 10000)). intros m Hm Hp.
  assert (Hd : (0 < m)%Q) by lra.
  split.
  - apply Qle_shift_div_l; [exact Hd | lra].
  - apply Qle_shift_div_r; [exact Hd | lra].
Qed.

Lemma score_range (raw top : Q) (doc : doc_t) (coverage : Q) :
  (0 <= raw)%Q → (raw <= top)%Q → (0 <= coverage <= 1)%Q → quantity_nonneg doc →
  (0 <= _recommendation_score raw top doc coverage <= 1)%Q.
Proof.
  intros Hraw Hle Hcov Hq. unfold _recommendation_score.
  assert (Hs : (0 <= py_min (inject_Z (default 0%Z (d_quantity_available doc)) / 10000) 1
                <= 1)%Q).
  { apply stock_range. destruct (d_quantity_available doc) as [q|] eqn:Hd; simpl.
    - by apply Hq.
    - lia. }
  pose proof (price_score_range (default 0%Q (d_unit_price doc))) as Hp.
  pose proof (relevance_range raw top Hraw Hle) as Hr.
  revert Hs Hp Hr.
  generalize (py_min (inject_Z (default 0%Z (d_quantity_available doc)) / 10000) 1).
  generalize (1 / (1 + py_max (default 0%Q (d_unit_price doc)) 0))%Q.
  generalize (raw / py_max top (1 # 10000))%Q.
  intros relevance price_score stock Hs Hp Hr.
  split.
  - apply Qle_trans with (0 # 10000)%Q; [discriminate|].
    apply round4_lower.
    apply Qle_trans with 0%Q; [discriminate | lra].
  - apply Qle_trans with (10000 # 10000)%Q; [|discriminate].
    apply round4_upper.
    apply Qle_trans with 1%Q; [lra | discriminate].
Qed.

Lemma score_or_le (hit : hit_t) : (score_or 0 hit <= score_or 1 hit)%Q.
Proof.
  unfold score_or. destruct (h_score hit) as [s|]; [|discriminate].
  destruct (Qeq_bool s 0); [discriminate | apply Qle_refl].
Qed.

Lemma score_or_nonneg (hit : hit_t) :
  (∀ s, h_score hit = Some s → (0 <= s)%Q) → (0 <= score_or 0 hit)%Q.
Proof.
  intros Hs. unfold score_or. destruct (h_score hit) as [s|]; [|apply Qle_refl].
  destruct (Qeq_bool s 0); [apply Qle_refl | by apply Hs].
Qed.

Lemma Forall2_Forall_mapped {A B} (P : A → B → Prop) (Pl : A → Prop)
    (Pr : B → Prop) (l : list A) (k : list B) :
  Forall2 P l k → Forall Pl l → (∀ x y, P x y → Pl x → Pr y) → Forall Pr k.
Proof.
  intros H2 Hl Himp. induction H2 as [|x y l k Hxy _ IH]; [constructor|].
  apply Forall_cons in Hl as [Hx Hl].
  constructor; [by eapply Himp | by apply IH].
Qed.

(** X16. On the remote path the composite score stays between 0 and 1
    whenever the engine's scores and the sources' quantities are not
    negative: the raw score of a hit never exceeds the normaliser. *)
Theorem remote_scores_in_range
    (client : es_client) (index : string) (intent : QueryIntent)
    (response : es_response) (results : list ProductResult) :
  c_search client (build_request index intent) = Ok response →
  Forall (λ hit, (∀ s, h_score hit = Some s → (0 <= s)%Q)
                 ∧ quantity_nonneg (default empty_doc (h_source hit)))
         (resp_hits response) →
  _search_elasticsearch client index intent = Ok results →
  Forall (λ r, (0 <= recommendation_score r <= 1)%Q) results.
Proof.
  intros Hresp Hhits H. unfold _search_elasticsearch in H.
  rewrite Hresp in H. cbn -[map_hits top_score_of sort_by_score_desc] in H.
  destruct (resp_hits response) as [|first others] eqn:Hlist.
  - injection H as <-. constructor.
  - apply except_bind_Ok in H as (mapped & Hmapped & H). injection H as <-.
    rewrite sort_by_score_desc_perm.
    apply map_hits_scores in Hmapped.
    destruct (top_score_of_max first others) as [Htop _].
    assert (Hboth : Forall (λ hit, ((∀ s, h_score hit = Some s → (0 <= s)%Q)
                                    ∧ quantity_nonneg (default empty_doc (h_source hit)))
                                   ∧ (score_or 1 hit <= top_score_of first others)%Q)
                           (first :: others)).
    { apply Forall_and. by split. }
    eapply Forall2_Forall_mapped; [exact Hmapped | exact Hboth|].
    intros hit r -> [[Hscore Hquantity] Hle].
    apply score_range.
    + by apply score_or_nonneg.
    + eapply Qle_trans; [apply score_or_le | exact Hle].
    + apply _keyword_coverage_range.
    + exact Hquantity.
Qed.

Lemma remote_scores_in_range_witness :
  ∃ results,
    _search_elasticsearch (Sample.client Sample.two_hits) "digikey_products"
      Sample.cheap_resistors = Ok results
    ∧ Forall (λ r, (0 <= recommendation_score r <= 1)%Q) results.
Proof.
  destruct (_search_elasticsearch (Sample.client Sample.two_hits)
              "digikey_products" Sample.cheap_resistors) as [results|e] eqn:Hres;
    [|revert Hres; vm_compute; discriminate].
  exists results. split; [reflexivity|].
  apply (remote_scores_in_range (Sample.client Sample.two_hits)
           "digikey_products" Sample.cheap_resistors
           (mkResponse [Sample.hit_resistor; Sample.hit_cable]) results
           eq_refl); [|exact Hres].
  repeat constructor; simpl.
  - intros s [= <-]. discriminate.
  - intros q [= <-]. lia.
  - intros s [= <-]. discriminate.
  - intros q [= <-]. lia.
Defined.

Lemma round_half_even_mono (x y : Q) :
  (x <= y)%Q → (round_half_even x ≤ round_half_even y)%Z.
Proof.
  intros Hxy. pose proof (Qfloor_resp_le _ _ Hxy) as Hf.
  destruct (Z.eq_dec (Qfloor x) (Qfloor y)) as [He | Hne].
  - unfold round_half_even. rewrite <- He.
    destruct (Qcompare_spec (x - inject_Z (Qfloor x)) (1 # 2)) as [H1|H1|H1],
      (Qcompare_spec (y - inject_Z (Qfloor x)) (1 # 2)) as [H2|H2|H2];
      destruct (Z.even (Qfloor x)); try lia; exfalso;
      revert H1 H2; generalize (inject_Z (Qfloor x)); intros z H1 H2; lra.
  - destruct (round_half_even_cases x) as [[-> _] | [-> _]],
      (round_half_even_cases y) as [[-> _] | [-> _]]; lia.
Qed.

Lemma round4_mono (x y : Q) : (x <= y)%Q → (round4 x <= round4 y)%Q.
Proof.
  intros Hxy. unfold round4.
  assert (H : (x * 10000 <= y * 10000)%Q) by lra.
  apply round_half_even_mono in H. unfold Qle. simpl. lia.
Qed.

Lemma price_score_antitone (p1 p2 : Q) :
  (p2 <= p1)%Q → (1 / (1 + py_max p1 0) <= 1 / (1 + py_max p2 0))%Q.
Proof.
  intros Hp. rewrite !py_max_Qmax.
  pose proof (Q.le_max_r p1 0) as H1. pose proof (Q.le_max_r p2 0) as H2.
  assert (Hm : (Qmax p2 0 <= Qmax p1 0)%Q) by (by apply Q.max_le_compat_r).
  revert H1 H2 Hm. generalize (Qmax p1 0), (Qmax p2 0). intros a b Ha Hb Hba.
  assert (Hda : (0 < 1 + a)%Q) by lra.
  assert (Hdb : (0 < 1 + b)%Q) by lra.
  apply Qle_shift_div_l; [exact Hdb|].
  assert (He : (1 / (1 + a) * (1 + b) == (1 + b) / (1 + a))%Q).
  { field. intros Hz. rewrite Hz in Hda. exact (Qlt_irrefl _ Hda). }
  rewrite He. apply Qle_shift_div_r; [exact Hda | lra].
Qed.

(** X17. The composite score is monotone in each of its inputs: with the
    same normaliser, a hit with a raw score and coverage at least as high, a
    quantity at least as large and a price at most as high never gets a
    lower [recommendation_score]. *)
Theorem recommendation_score_monotone
    (raw1 raw2 top : Q) (doc1 doc2 : doc_t) (coverage1 coverage2 : Q) :
  (raw1 <= raw2)%Q →
  (coverage1 <= coverage2)%Q →
  (default 0 (d_quantity_available doc1) ≤ default 0 (d_quantity_available doc2))%Z →
  (default 0 (d_unit_price doc2) <= default 0 (d_unit_price doc1))%Q →
  (_recommendation_score raw1 top doc1 coverage1
   <= _recommendation_score raw2 top doc2 coverage2)%Q.
Proof.
  intros Hraw Hcov Hqty Hprice. unfold _recommendation_score.
  apply round4_mono.
  assert (Hrel : (raw1 / py_max top (1 # 10000) <= raw2 / py_max top (1 # 10000))%Q).
  { unfold Qdiv. apply Qmult_le_compat_r; [exact Hraw|].
    apply Qinv_le_0_compat. rewrite py_max_Qmax.
    apply Qle_trans with (1 # 10000)%Q; [discriminate | apply Q.le_max_r]. }
  assert (Hstock : (py_min (inject_Z (default 0%Z (d_quantity_available doc1)) / 10000) 1
                    <= py_min (inject_Z (default 0%Z (d_quantity_available doc2)) / 10000) 1)%Q).
  { rewrite !py_min_Qmin. apply Q.min_le_compat_r.
    unfold Qdiv. apply Qmult_le_compat_r; [|discriminate].
    by rewrite <- Zle_Qle. }
  pose proof (price_score_antitone _ _ Hprice) as Hps.
  revert Hrel Hstock Hps.
  generalize (raw1 / py_max top (1 # 10000))%Q, (raw2 / py_max top (1 # 10000))%Q.
  generalize (py_min (inject_Z (default 0%Z (d_quantity_available doc1)) / 10000) 1).
  generalize (py_min (inject_Z (default 0%Z (d_quantity_available doc2)) / 10000) 1).
  generalize (1 / (1 + py_max (default 0%Q (d_unit_price doc1)) 0))%Q.
  generalize (1 / (1 + py_max (default 0%Q (d_unit_price doc2)) 0))%Q.
  intros. lra.
Qed.

Lemma recommendation_score_monotone_witness :
  (_recommendation_score (1 # 2) 1
     (Sample.product "res-1" "Resistor 10k" (3 # 2) 100) (1 # 3)
   <= _recommendation_score (3 # 4) 1
        (Sample.product "res-2" "Resistor 1k" (1 # 100) 5000) (2 # 3))%Q.
Proof.
  apply recommendation_score_monotone; simpl; [| | lia |]; discriminate.
Defined.

(** ** Keyword coverage: the two ends of the scale, and letter case *)

Lemma ratio_one (m n : nat) :
  (0 < n)%nat →
  (inject_Z (Z.of_nat m) / inject_Z (Z.of_nat n) == 1)%Q ↔ m = n.
Proof.
  intros Hpos.
  assert (Hn : ¬ (inject_Z (Z.of_nat n) == 0)%Q).
  { unfold Qeq. simpl. lia. }
  split.
  - intros H.
    assert (He : (inject_Z (Z.of_nat m) == inject_Z (Z.of_nat n))%Q).
    { rewrite <- (Qmult_div_r (inject_Z (Z.of_nat m)) _ Hn), H. ring. }
    pose proof (proj1 (inject_Z_injective _ _) He). lia.
  - intros ->. rewrite <- (Qmult_1_l (inject_Z (Z.of_nat n))) at 1.
    by apply Qdiv_mult_l.
Qed.

Lemma ratio_zero (m n : nat) :
  (0 < n)%nat →
  (inject_Z (Z.of_nat m) / inject_Z (Z.of_nat n) == 0)%Q ↔ m = 0%nat.
Proof.
  intros Hpos.
  assert (Hn : ¬ (inject_Z (Z.of_nat n) == 0)%Q).
  { unfold Qeq. simpl. lia. }
  split.
  - intros H.
    assert (He : (inject_Z (Z.of_nat m) == inject_Z 0)%Q).
    { rewrite <- (Qmult_div_r (inject_Z (Z.of_nat m)) _ Hn), H. ring. }
    pose proof (proj1 (inject_Z_injective _ _) He). lia.
  - intros ->. reflexivity.
Qed.

(** X18. The two ends of the coverage scale.  [_keyword_coverage] is 1
    exactly when the query has significant tokens and every one of them
    occurs in the document's lowercased text; it is 0 exactly when the query
    has no significant token or none of them occurs. *)
Theorem keyword_coverage_extremes (query : string) (doc : doc_t) :
  ((_keyword_coverage query doc == 1)%Q
   ↔ coverage_query_tokens query ≠ ∅
     ∧ ∀ token, token ∈ coverage_query_tokens query →
                Text.contains token (fallback_haystack doc) = true)
  ∧ ((_keyword_coverage query doc == 0)%Q
     ↔ coverage_query_tokens query = ∅
       ∨ ∀ token, token ∈ coverage_query_tokens query →
                  Text.contains token (fallback_haystack doc) = false).
Proof.
  unfold _keyword_coverage. fold (fallback_haystack doc).
  destruct (decide (coverage_query_tokens query = ∅)) as [He | Hne].
  - split; split.
    + discriminate.
    + by intros [Hne _].
    + by left.
    + reflexivity.
  - assert (Hpos : (0 < size (coverage_query_tokens query))%nat).
    { apply Nat.neq_0_lt_0. intros Hz. apply size_empty_inv in Hz.
      apply Hne. by apply leibniz_equiv. }
    unfold count_matches. split.
    + rewrite (ratio_one _ _ Hpos). split.
      * intros Hsize. split; [exact Hne|]. intros token Hin.
        assert (Hsub : filter (λ token, Text.contains token (fallback_haystack doc) = true)
                         (coverage_query_tokens query)
                       = coverage_query_tokens query).
        { apply set_subseteq_size_eq; [|lia].
          intros t Ht. by apply elem_of_filter in Ht as [_ Ht]. }
        rewrite <- Hsub in Hin. by apply elem_of_filter in Hin as [Hin _].
      * intros [_ Hall]. f_equal. apply leibniz_equiv. intros t.
        rewrite elem_of_filter. split; [by intros [_ Ht]|].
        intros Ht. split; [by apply Hall | exact Ht].
    + rewrite (ratio_zero _ _ Hpos). split.
      * intros Hsize. right. intros token Hin.
        apply size_empty_inv in Hsize.
        destruct (Text.contains token (fallback_haystack doc)) eqn:Hc; [|reflexivity].
        exfalso. apply (not_elem_of_empty (C:=gset string) token).
        rewrite <- Hsize. by apply elem_of_filter.
      * intros [He | Hnone]; [contradiction|].
        apply size_empty_iff. intros t. split; [|by intros H%not_elem_of_empty].
        intros [Hc Ht]%elem_of_filter. rewrite (Hnone t Ht) in Hc. discriminate.
Qed.

Lemma lower_ascii_idem (c : ascii) :
  Text.lower_ascii (Text.lower_ascii c) = Text.lower_ascii c.
Proof. destruct c as [[] [] [] [] [] [] [] []]; reflexivity. Qed.

Lemma lower_idem (s : string) : Text.lower (Text.lower s) = Text.lower s.
Proof.
  induction s as [|c s IH]; simpl; [reflexivity|].
  by rewrite lower_ascii_idem, IH.
Qed.

Lemma token_set_lower (stop_words : gset string) (query1 query2 : string) :
  Text.lower query1 = Text.lower query2 →
  token_set stop_words query1 = token_set stop_words query2.
Proof. intros H. unfold token_set. by rewrite H. Qed.

Lemma fallback_candidate_case (intent1 intent2 : QueryIntent) (doc : doc_t) :
  Text.lower (keywords intent1) = Text.lower (keywords intent2) →
  in_stock_only intent1 = in_stock_only intent2 →
  min_quantity intent1 = min_quantity intent2 →
  max_unit_price intent1 = max_unit_price intent2 →
  fallback_candidate intent1 (fallback_query_tokens (keywords intent1)) doc
  = fallback_candidate intent2 (fallback_query_tokens (keywords intent2)) doc.
Proof.
  intros Hk Hs Hm Hp. unfold fallback_candidate, fallback_query_tokens.
  rewrite (token_set_lower _ _ _ Hk), Hs, Hm, Hp.
  unfold _keyword_coverage, coverage_query_tokens.
  by rewrite (token_set_lower _ _ _ Hk).
Qed.

(** X19. The fallback search reads the query's letters only through their
    lowercase, and never reads [sort_preference]: two intents whose keywords
    differ in letter case alone, with the same limit and constraints, get
    the same answer, whatever sort each asks for.  So does the same query
    once lowercased. *)
Theorem fallback_ignores_case_and_sort
    (self : CatalogService) (intent1 intent2 : QueryIntent) :
  Text.lower (keywords intent1) = Text.lower (keywords intent2) →
  limit intent1 = limit intent2 →
  in_stock_only intent1 = in_stock_only intent2 →
  min_quantity intent1 = min_quantity intent2 →
  max_unit_price intent1 = max_unit_price intent2 →
  _fallback_search self intent1 = _fallback_search self intent2
  ∧ _fallback_search self
      (mkQueryIntent (Text.lower (keywords intent1)) (limit intent1)
         (in_stock_only intent1) (min_quantity intent1) (max_unit_price intent1)
         (sort_preference intent1))
    = _fallback_search self intent1.
Proof.
  assert (Hloop : ∀ intent intent' : QueryIntent,
            Text.lower (keywords intent) = Text.lower (keywords intent') →
            limit intent = limit intent' →
            in_stock_only intent = in_stock_only intent' →
            min_quantity intent = min_quantity intent' →
            max_unit_price intent = max_unit_price intent' →
            _fallback_search self intent = _fallback_search self intent').
  { intros intent intent' Hk Hl Hs Hm Hp. unfold _fallback_search. rewrite Hl.
    assert (He : fallback_loop intent (fallback_query_tokens (keywords intent))
                   (_fallback_docs self)
                 = fallback_loop intent' (fallback_query_tokens (keywords intent'))
                     (_fallback_docs self)).
    { induction (_fallback_docs self) as [|doc docs IH]; simpl; [reflexivity|].
      by rewrite (fallback_candidate_case intent intent' doc Hk Hs Hm Hp), IH. }
    by rewrite He. }
  intros Hk Hl Hs Hm Hp. split; [by apply Hloop|].
  apply Hloop; simpl; try reflexivity. apply lower_idem.
Qed.

Lemma fallback_ignores_case_and_sort_witness :
  _fallback_search Sample.fresh
    (mkQueryIntent "Raspberry PI Power Supply" 5 true None None price_low)
  = _fallback_search Sample.fresh Sample.intent.
Proof.
  assert (Hcase : Text.lower "Raspberry PI Power Supply"
                  = Text.lower (keywords Sample.intent))
    by (vm_compute; reflexivity).
  exact (proj1 (fallback_ignores_case_and_sort Sample.fresh
                  (mkQueryIntent "Raspberry PI Power Supply" 5 true None None
                     price_low)
                  Sample.intent Hcase eq_refl eq_refl eq_refl eq_refl)).
Defined.

(** ** The API layer *)

Lemma filter_all {A} (P : A → Prop) `{∀ x, Decision (P x)} (l : list A) :
  Forall P l → filter P l = l.
Proof.
  induction 1 as [|x l Hx _ IH]; [reflexivity|].
  by rewrite filter_cons_True, IH.
Qed.

Lemma or_int_0 (q : Z) : or_int q 0 = q.
Proof. unfold or_int. by destruct (decide (q = 0%Z)) as [-> |]. Qed.

Lemma or_float_0 (p : Q) : (or_float p 0 == p)%Q.
Proof.
  unfold or_float. destruct (Qeq_bool p 0) eqn:He; [|reflexivity].
  symmetry. by apply Qeq_bool_eq.
Qed.

Lemma _apply_intent_constraints_filter (products : list ProductResult)
    (intent : QueryIntent) :
  _apply_intent_constraints products intent
  = slice_to (limit intent) (filter (meets intent) products).
Proof.
  unfold _apply_intent_constraints. f_equal.
  assert (Hstock : ∀ l : list ProductResult,
            filter (λ p, (0 < or_int (quantity_available p) 0)%Z) l
            = filter (λ p, (0 < quantity_available p)%Z) l).
  { intros l. apply list_filter_iff. intros p. by rewrite or_int_0. }
  assert (Hmin : ∀ m (l : list ProductResult),
            filter (λ p, (m ≤ or_int (quantity_available p) 0)%Z) l
            = filter (λ p, (m ≤ quantity_available p)%Z) l).
  { intros m l. apply list_filter_iff. intros p. by rewrite or_int_0. }
  assert (Hprice : ∀ mp (l : list ProductResult),
            filter (λ p, (or_float (unit_price p) 0 <= mp)%Q) l
            = filter (λ p, (unit_price p <= mp)%Q) l).
  { intros mp l. apply list_filter_iff. intros p. by rewrite or_float_0. }
  generalize (meets_decision intent). unfold meets.
  destruct (in_stock_only intent), (min_quantity intent) as [m|],
    (max_unit_price intent) as [mp|]; intros Hdec;
    rewrite ?Hstock, ?Hmin, ?Hprice, ?list_filter_filter;
    try (apply list_filter_iff; intros p; tauto).
  symmetry. apply filter_all, Forall_forall. tauto.
Qed.

(** X20. What [_apply_intent_constraints] returns: a sublist of the
    products it was given, in their order, of at most [limit] items, each
    meeting the three constraints of the intent (a quantity above zero for
    [in_stock_only], at least [min_quantity], a price of at most
    [max_unit_price]); a list that already meets them and is no longer than
    the limit comes back unchanged, so applying the function twice changes
    nothing more. *)
Theorem _apply_intent_constraints_spec
    (products : list ProductResult) (intent : QueryIntent) :
  intent_valid intent →
  _apply_intent_constraints products intent `sublist_of` products
  ∧ Forall (meets intent) (_apply_intent_constraints products intent)
  ∧ (length (_apply_intent_constraints products intent) ≤ Z.to_nat (limit intent))%nat
  ∧ (Forall (meets intent) products →
     (length products ≤ Z.to_nat (limit intent))%nat →
     _apply_intent_constraints products intent = products)
  ∧ _apply_intent_constraints (_apply_intent_constraints products intent) intent
    = _apply_intent_constraints products intent.
Proof.
  intros [Hlimit _].
  assert (Hsound : ∀ l, Forall (meets intent) (_apply_intent_constraints l intent)
                        ∧ (length (_apply_intent_constraints l intent)
                           ≤ Z.to_nat (limit intent))%nat).
  { intros l. rewrite _apply_intent_constraints_filter. unfold slice_to.
    destruct (Z.leb_spec 0 (limit intent)); [|lia]. split.
    - apply Forall_take, Forall_forall. intros p Hp.
      by apply list_elem_of_filter in Hp as [Hp _].
    - rewrite length_take. lia. }
  assert (Hfix : ∀ l, Forall (meets intent) l →
                      (length l ≤ Z.to_nat (limit intent))%nat →
                      _apply_intent_constraints l intent = l).
  { intros l Hall Hlen. rewrite _apply_intent_constraints_filter. unfold slice_to.
    destruct (Z.leb_spec 0 (limit intent)); [|lia].
    rewrite (filter_all _ _ Hall). by apply take_ge. }
  split; [|split; [|split; [|split]]].
  - rewrite _apply_intent_constraints_filter. unfold slice_to.
    destruct (Z.leb_spec 0 (limit intent)); [|lia].
    etrans; [apply sublist_take | apply sublist_filter].
  - apply Hsound.
  - apply Hsound.
  - apply Hfix.
  - apply Hfix; apply Hsound.
Qed.

Lemma _apply_intent_constraints_spec_witness :
  _apply_intent_constraints
    [mkProductResult "a" "Acme" "PN-1" "Cable" "bench part" "Parts" (3 # 2) 40
       "u" "d" (9 # 10) "r";
     mkProductResult "b" "Acme" "PN-2" "Plug" "bench part" "Parts" (1 # 2) 0
       "u" "d" (8 # 10) "r"]
    Sample.intent
  `sublist_of`
    [mkProductResult "a" "Acme" "PN-1" "Cable" "bench part" "Parts" (3 # 2) 40
       "u" "d" (9 # 10) "r";
     mkProductResult "b" "Acme" "PN-2" "Plug" "bench part" "Parts" (1 # 2) 0
       "u" "d" (8 # 10) "r"].
Proof.
  apply _apply_intent_constraints_spec.
  split; [simpl; lia|]. split; intros ? [=].
Defined.

Lemma QueryIntent_init_limit (keywords : string) (limit : Z)
    (sort_preference : sort_preference_t) :
  QueryIntent_init keywords limit false None None sort_preference
  = if bool_decide (1 ≤ limit ≤ 20)%Z
    then Returned (mkQueryIntent keywords limit false None None sort_preference)
    else Raised (ValidationError ["limit"]).
Proof. unfold QueryIntent_init. by destruct (bool_decide _). Qed.

(** X21. The header search accepts limits that the search intent refuses.
    A request that passes its own validation (a query of 2 to 250
    characters, a limit from 1 to 25) with a limit above 20 never reaches
    the catalog: building the [QueryIntent] raises a [ValidationError] on
    [limit].  With a limit of at most 20 the endpoint answers with the
    results of [search] for the query, with no constraint and the relevance
    sort, or fails with the exception [search] raised. *)
Theorem digikey_search_limit
    (catalog : CatalogService) (request : DirectSearchRequest) :
  request_valid request →
  ((20 < dsr_limit request)%Z →
   digikey_search catalog request = Raised (ValidationError ["limit"]))
  ∧ ((dsr_limit request ≤ 20)%Z →
     digikey_search catalog request
     = match snd (search catalog
                    (mkQueryIntent (dsr_query request) (dsr_limit request)
                       false None None relevance)) with
       | Ok (products, warning) =>
           Returned (mkDirectSearchResponse "mock_catalog" (dsr_query request)
                       (direct_of_result <$> products) warning)
       | Err e => Raised (CatalogError e)
       end).
Proof.
  intros [_ Hlimit]. unfold digikey_search, _query_mock_products.
  rewrite QueryIntent_init_limit. split; intros H.
  - rewrite bool_decide_eq_false_2 by lia. reflexivity.
  - rewrite bool_decide_eq_true_2 by lia.
    destruct (search catalog _).2 as [[products warning]|e]; reflexivity.
Qed.

Lemma digikey_search_limit_witness :
  digikey_search Sample.fresh (mkDirectSearchRequest "usb cable" 25)
  = Raised (ValidationError ["limit"]).
Proof.
  apply (digikey_search_limit Sample.fresh (mkDirectSearchRequest "usb cable" 25)).
  - split; simpl; lia.
  - simpl. lia.
Defined.

Lemma or_str_nonempty (a b : string) : b ≠ "" → or_str a b ≠ "".
Proof. intros Hb. unfold or_str. by destruct (decide (a = "")). Qed.

Lemma or_str_empty (a : string) : or_str a "" = a.
Proof. unfold or_str. by destruct (decide (a = "")) as [-> |]. Qed.

(** X22. From a search result to a [DirectSearchProduct] and back: the
    conversion of [chat] restores every field of the result except an empty
    id and an empty fit reason.  A result with a non-empty id and fit reason
    comes back unchanged; an empty id is replaced by the part number or, when
    that is empty too, by ["product-<rank>"], so that the product shown never
    has an empty id. *)
Theorem direct_round_trip (p : ProductResult) (rank : nat) :
  (id p ≠ "" → fit_reason p ≠ "" →
   _direct_to_product_result (direct_of_result p) rank = p)
  ∧ id (_direct_to_product_result (direct_of_result p) rank) ≠ ""
  ∧ fit_reason (_direct_to_product_result (direct_of_result p) rank) ≠ ""
  ∧ _direct_to_product_result (direct_of_result p) rank
    = mkProductResult
        (id (_direct_to_product_result (direct_of_result p) rank))
        (manufacturer p) (manufacturer_part_number p) (name p) (description p)
        (category p) (unit_price p) (quantity_available p) (product_url p)
        (datasheet_url p) (recommendation_score p)
        (fit_reason (_direct_to_product_result (direct_of_result p) rank)).
Proof.
  destruct p as [i m pn nm ds ct pr q pu du sc fr].
  unfold _direct_to_product_result, direct_of_result. simpl.
  rewrite !or_str_empty.
  split; [|split; [|split]].
  - intros Hi Hf. unfold or_str.
    destruct (decide (i = "")); [contradiction|].
    destruct (decide (fr = "")); [contradiction|]. reflexivity.
  - unfold or_str at 1. destruct (decide (i = "")); [|done].
    apply or_str_nonempty. discriminate.
  - apply or_str_nonempty. discriminate.
  - reflexivity.
Qed.

Lemma direct_round_trip_witness :
  _direct_to_product_result
    (direct_of_result
       (mkProductResult "a" "Acme" "PN-1" "Cable" "bench part" "Parts" (3 # 2) 40
          "u" "d" (9 # 10) "r")) 3
  = mkProductResult "a" "Acme" "PN-1" "Cable" "bench part" "Parts" (3 # 2) 40
      "u" "d" (9 # 10) "r".
Proof.
  apply (proj1 (direct_round_trip
                  (mkProductResult "a" "Acme" "PN-1" "Cable" "bench part" "Parts"
                     (3 # 2) 40 "u" "d" (9 # 10) "r") 3));
    discriminate.
Defined.

(** ** The chat endpoint against the constrained search *)

Lemma make_result_reason (doc : doc_t) (score : Q) (reason : string)
    (r : ProductResult) :
  make_result doc score reason = Ok r → fit_reason r = reason.
Proof.
  intros H. unfold make_result in H.
  do 10 (apply except_bind_Ok in H as (? & _ & H)).
  by injection H as <-.
Qed.

Lemma _build_reason_nonempty (doc : doc_t) (score coverage : Q) :
  _build_reason doc score coverage ≠ "".
Proof. unfold _build_reason. discriminate. Qed.

(** The loop body under the given intent, from the loop body under the
    intent without constraints. *)
Lemma fallback_candidate_relaxed (intent : QueryIntent) (doc : doc_t) :
  match fallback_candidate (relaxed intent)
          (fallback_query_tokens (keywords intent)) doc with
  | Ok (Some r) =>
      fallback_candidate intent (fallback_query_tokens (keywords intent)) doc
      = Ok (if decide (meets intent r) then Some r else None)
      ∧ fit_reason r ≠ "" ∧ d_id doc = Some (id r)
  | Ok None =>
      fallback_candidate intent (fallback_query_tokens (keywords intent)) doc
      = Ok None
  | Err e => True
  end.
Proof.
  destruct (fallback_candidate (relaxed intent) _ doc) as [[r|]|e] eqn:H;
    [| |exact I].
  - unfold fallback_candidate in H.
    apply except_bind_Ok in H as (m & Hm & H).
    apply except_bind_Ok in H as (pn & Hpn & H).
    apply except_bind_Ok in H as (nm & Hnm & H).
    apply except_bind_Ok in H as (ds & Hds & H).
    destruct (_ && _) eqn:Htok in H; [discriminate|].
    cbn -[make_result _recommendation_score _keyword_coverage _build_reason] in H.
    apply except_bind_Ok in H as (r' & Hr & H). injection H as ->.
    pose proof (make_result_reason _ _ _ _ Hr) as Hreason.
    pose proof (make_result_fields _ _ _ _ Hr) as (Hq & Hp & Hid & _).
    split; [|split; [rewrite Hreason; apply _build_reason_nonempty | exact Hid]].
    unfold fallback_candidate. rewrite Hm, Hpn, Hnm, Hds.
    cbn -[make_result _recommendation_score _keyword_coverage _build_reason
          haystack_of count_matches] in *.
    rewrite Htok, Hq, Hp.
    generalize (meets_decision intent r). unfold meets.
    destruct (in_stock_only intent), (min_quantity intent) as [mq|],
      (max_unit_price intent) as [mp|];
      cbn -[make_result _recommendation_score _keyword_coverage _build_reason];
      intros Hdec;
      repeat match goal with
        | |- context [(?a <=? ?b)%Z] => destruct (Z.leb_spec a b)
        | |- context [(?a <? ?b)%Z] => destruct (Z.ltb_spec a b)
        | |- context [Qltb ?a ?b] =>
            let Hc := fresh "Hc" in
            destruct (Qltb a b) eqn:Hc;
            [apply Qltb_lt in Hc | apply Qltb_ge in Hc]
        end;
      cbn -[make_result _recommendation_score _keyword_coverage _build_reason];
      rewrite ?Hr;
      cbn -[make_result _recommendation_score _keyword_coverage _build_reason];
      destruct Hdec as [Hmeet | Hmeet]; try reflexivity; exfalso;
      try (destruct Hmeet as (H1 & H2 & H3);
           first [lia | exact (Qlt_not_le _ _ Hc H3)]);
      apply Hmeet; repeat split; first [lia | assumption].
  - unfold fallback_candidate in H.
    apply except_bind_Ok in H as (m & Hm & H).
    apply except_bind_Ok in H as (pn & Hpn & H).
    apply except_bind_Ok in H as (nm & Hnm & H).
    apply except_bind_Ok in H as (ds & Hds & H).
    destruct (_ && _) eqn:Htok in H.
    + unfold fallback_candidate. rewrite Hm, Hpn, Hnm, Hds.
      cbn -[haystack_of count_matches] in *. by rewrite Htok.
    + cbn -[make_result _recommendation_score _keyword_coverage _build_reason] in H.
      apply except_bind_Ok in H as (r' & Hr & H). discriminate.
Qed.

Lemma fallback_loop_relaxed (intent : QueryIntent) (docs : list doc_t)
    (found : list ProductResult) :
  fallback_loop (relaxed intent) (fallback_query_tokens (keywords intent)) docs
  = Ok found →
  fallback_loop intent (fallback_query_tokens (keywords intent)) docs
  = Ok (filter (meets intent) found)
  ∧ Forall (λ r, fit_reason r ≠ "" ∧ ∃ doc, doc ∈ docs ∧ d_id doc = Some (id r))
           found.
Proof.
  revert found. induction docs as [|doc docs IH]; simpl; intros found H.
  - injection H as <-. split; [reflexivity | constructor].
  - apply except_bind_Ok in H as (c & Hc & H).
    apply except_bind_Ok in H as (rs & Hrs & H). injection H as <-.
    destruct (IH rs Hrs) as [IHloop IHall].
    assert (Hrest : Forall (λ r, fit_reason r ≠ ""
                                 ∧ ∃ doc0, doc0 ∈ doc :: docs ∧ d_id doc0 = Some (id r))
                           rs).
    { eapply Forall_impl; [exact IHall|]. intros r (Hf & d & Hd & Hid).
      split; [exact Hf|]. exists d. split; [by right | exact Hid]. }
    pose proof (fallback_candidate_relaxed intent doc) as Hrel.
    rewrite Hc in Hrel. rewrite IHloop. destruct c as [r|].
    + destruct Hrel as (-> & Hf & Hid). split.
      * simpl. rewrite filter_cons. by destruct (decide (meets intent r)).
      * constructor; [|exact Hrest]. split; [exact Hf|].
        exists doc. split; [by left | exact Hid].
    + rewrite Hrel. by split.
Qed.

Lemma insert_desc_head (r : ProductResult) (l : list ProductResult) :
  Forall (λ r', score_ge r r') l → insert_desc r l = r :: l.
Proof.
  intros Hall. destruct l as [|r' l]; [reflexivity|]. simpl.
  apply Forall_cons in Hall as [Hr' _].
  by rewrite (proj2 (Qltb_ge _ _) Hr').
Qed.

Lemma insert_desc_filter_in (P : ProductResult → Prop) `{∀ r, Decision (P r)}
    (r : ProductResult) (l : list ProductResult) :
  StronglySorted score_ge l → P r →
  filter P (insert_desc r l) = insert_desc r (filter P l).
Proof.
  intros Hs Hr. induction Hs as [|r' l Hs IH Hall]; simpl.
  - by rewrite filter_cons_True.
  - destruct (Qltb _ _) eqn:Hcmp.
    + rewrite !(filter_cons _ r'), IH.
      destruct (decide (P r')); [|reflexivity]. simpl. by rewrite Hcmp.
    + apply Qltb_ge in Hcmp. rewrite (filter_cons_True _ r) by exact Hr.
      symmetry. apply insert_desc_head.
      apply Forall_forall. intros x Hx.
      apply list_elem_of_filter in Hx as [_ Hx].
      apply elem_of_cons in Hx as [-> | Hx]; [exact Hcmp|].
      rewrite Forall_forall in Hall.
      eapply score_ge_trans; [exact Hcmp | by apply Hall].
Qed.

Lemma insert_desc_filter_out (P : ProductResult → Prop) `{∀ r, Decision (P r)}
    (r : ProductResult) (l : list ProductResult) :
  ¬ P r → filter P (insert_desc r l) = filter P l.
Proof.
  intros Hr. induction l as [|r' l IH]; simpl.
  - by rewrite filter_cons_False.
  - destruct (Qltb _ _).
    + by rewrite !(filter_cons _ r'), IH.
    + by rewrite (filter_cons_False _ r).
Qed.

(** Sorting by score and filtering commute. *)
Lemma sort_by_score_desc_filter (P : ProductResult → Prop) `{∀ r, Decision (P r)}
    (l : list ProductResult) :
  sort_by_score_desc (filter P l) = filter P (sort_by_score_desc l).
Proof.
  induction l as [|r l IH]; simpl; [reflexivity|].
  rewrite filter_cons. destruct (decide (P r)) as [Hr | Hr].
  - simpl. rewrite IH. symmetry.
    apply insert_desc_filter_in; [apply sort_by_score_desc_sorted | exact Hr].
  - rewrite IH. symmetry. by apply insert_desc_filter_out.
Qed.

Lemma filter_take_prefix {A} (P : A → Prop) `{∀ x, Decision (P x)}
    (n : nat) (l : list A) :
  filter P (take n l) `prefix_of` take n (filter P l).
Proof.
  revert n. induction l as [|x l IH]; intros [|n]; simpl;
    try apply prefix_nil.
  rewrite !filter_cons. destruct (decide (P x)); simpl.
  - apply prefix_cons, IH.
  - etrans; [apply IH|].
    replace (take n (filter P l)) with (take n (take (S n) (filter P l)))
      by (rewrite take_take; f_equal; lia).
    apply prefix_take.
Qed.

Lemma filter_none {A} (P : A → Prop) `{∀ x, Decision (P x)} (l : list A) :
  Forall (λ x, ¬ P x) l → filter P l = [].
Proof.
  induction 1 as [|x l Hx _ IH]; [reflexivity|].
  by rewrite filter_cons_False.
Qed.

Lemma imap_round_trip (results : list ProductResult) :
  Forall (λ r, id r ≠ "" ∧ fit_reason r ≠ "") results →
  imap (λ idx item, _direct_to_product_result item idx)
    (direct_of_result <$> results)
  = results.
Proof.
  intros Hall. apply list_eq. intros i.
  rewrite list_lookup_imap, list_lookup_fmap.
  destruct (results !! i) as [r|] eqn:Hr; simpl; [|reflexivity].
  f_equal. destruct (proj1 (Forall_lookup _ _) Hall i r Hr) as [Hid Hf].
  unfold _direct_to_product_result, direct_of_result. simpl.
  rewrite !or_str_empty. unfold or_str.
  destruct (decide (id r = "")); [contradiction|].
  destruct (decide (fit_reason r = "")); [contradiction|].
  by destruct r.
Qed.

Lemma search_fallback_mode (self : CatalogService) (intent : QueryIntent) :
  _mode self ≠ "elasticsearch" →
  snd (search self intent)
  = (results ← _fallback_search self intent;
     mret (results, Some fallback_warning)).
Proof.
  intros Hmode. unfold search.
  rewrite bool_decide_eq_true_2 by exact Hmode. by destruct (_client self).
Qed.

(** X23. [chat] cuts to the limit before it applies the constraints.  In
    fallback mode, on a catalog whose documents carry their ten result keys
    and a non-empty id, [chat] answers, and its products are the results of
    the search without constraints that meet the constraints of the
    interpreted intent.  They form a prefix of what the fallback search
    returns for the intent itself: never a different product or order, but
    possibly fewer than [limit] although more products qualify. *)
Theorem chat_products_prefix_of_constrained
    (interpreter : QueryInterpreter) (catalog : CatalogService)
    (startup_warning : option string) (message : string) :
  intent_valid (interpret interpreter message) →
  _mode catalog ≠ "elasticsearch" →
  Forall doc_complete (_fallback_docs catalog) →
  Forall (λ doc, d_id doc ≠ Some "") (_fallback_docs catalog) →
  ∃ response unconstrained constrained,
    chat interpreter catalog startup_warning message = Returned response
    ∧ cr_intent response = interpret interpreter message
    ∧ _fallback_search catalog (relaxed (interpret interpreter message))
      = Ok unconstrained
    ∧ _fallback_search catalog (interpret interpreter message) = Ok constrained
    ∧ cr_products response
      = filter (meets (interpret interpreter message)) unconstrained
    ∧ cr_products response `prefix_of` constrained.
Proof.
  intros [Hlimit Hvalid] Hmode Hdocs Hids.
  set (intent := interpret interpreter message) in *.
  destruct (fallback_loop_total (relaxed intent)
              (fallback_query_tokens (keywords intent)) _ Hdocs) as [found Hfound].
  destruct (fallback_loop_relaxed intent _ _ Hfound) as [Hloop Hall].
  set (n := Z.to_nat (limit intent)).
  assert (Hslice : ∀ l, slice_to (limit intent) l = take n l).
  { intros l. unfold slice_to. destruct (Z.leb_spec 0 (limit intent)); [done | lia]. }
  assert (Hrelaxed : _fallback_search catalog (relaxed intent)
                     = Ok (take n (sort_by_score_desc found))).
  { unfold _fallback_search.
    change (keywords (relaxed intent)) with (keywords intent).
    change (limit (relaxed intent)) with (limit intent).
    rewrite Hfound. simpl. by rewrite Hslice. }
  assert (Hconstrained : _fallback_search catalog intent
            = Ok (take n (filter (meets intent) (sort_by_score_desc found)))).
  { unfold _fallback_search. rewrite Hloop. simpl.
    by rewrite Hslice, sort_by_score_desc_filter. }
  assert (Hround : Forall (λ r, id r ≠ "" ∧ fit_reason r ≠ "")
                     (take n (sort_by_score_desc found))).
  { apply Forall_take. rewrite sort_by_score_desc_perm.
    eapply Forall_impl; [exact Hall|]. intros r (Hf & doc & Hdoc & Hid).
    split; [|exact Hf]. intros He.
    rewrite Forall_forall in Hids. apply (Hids doc Hdoc). by rewrite Hid, He. }
  assert (Hproducts :
            _apply_intent_constraints (take n (sort_by_score_desc found)) intent
            = filter (meets intent) (take n (sort_by_score_desc found))).
  { rewrite _apply_intent_constraints_filter, Hslice. apply take_ge.
    etrans; [apply length_filter|]. rewrite length_take. lia. }
  eexists _, (take n (sort_by_score_desc found)), _.
  split.
  { unfold chat, _query_mock_products. fold intent.
    rewrite QueryIntent_init_limit, bool_decide_eq_true_2 by lia.
    fold (relaxed intent).
    rewrite (search_fallback_mode _ _ Hmode), Hrelaxed.
    cbn -[_apply_intent_constraints imap take sort_by_score_desc].
    rewrite (imap_round_trip _ Hround), Hproducts. reflexivity. }
  split; [reflexivity|]. split; [exact Hrelaxed|]. split; [exact Hconstrained|].
  split; [reflexivity|]. simpl. apply filter_take_prefix.
Qed.

Lemma chat_products_prefix_of_constrained_witness :
  ∃ response constrained,
    chat (mkQueryInterpreter
            (λ _, mkQueryIntent "usb" 1 false None (Some 1%Q) relevance)
            (λ _ _ _, "summary"))
      Sample.fresh None "a cheap usb part"
    = Returned response
    ∧ _fallback_search Sample.fresh
        (mkQueryIntent "usb" 1 false None (Some 1%Q) relevance)
      = Ok constrained
    ∧ cr_products response = []
    ∧ id <$> constrained = ["res-1"].
Proof.
  destruct (chat_products_prefix_of_constrained
              (mkQueryInterpreter
                 (λ _, mkQueryIntent "usb" 1 false None (Some 1%Q) relevance)
                 (λ _ _ _, "summary"))
              Sample.fresh None "a cheap usb part")
    as (response & unconstrained & constrained & Hchat & _ & Hrelaxed & Hsearch
        & Hproducts & _).
  - split; [simpl; lia|]. split; [intros ? [=]|].
    intros p [= <-]. reflexivity.
  - discriminate.
  - repeat constructor; simpl; eauto.
  - repeat constructor; discriminate.
  - exists response, constrained. split; [exact Hchat|].
    simpl in Hsearch. split; [exact Hsearch|].
    assert (Hnone : Forall (λ r, ¬ (unit_price r <= 1)%Q) unconstrained).
    { clear -Hrelaxed. revert Hrelaxed. vm_compute. intros H.
      injection H as <-. constructor; [|constructor].
      intros Hprice. apply Hprice. reflexivity. }
    assert (Hc : id <$> constrained = ["res-1"]).
    { clear -Hsearch. revert Hsearch. vm_compute. intros H.
      by injection H as <-. }
    split; [|exact Hc].
    rewrite Hproducts. apply filter_none.
    eapply Forall_impl; [exact Hnone|].
    intros r Hr (_ & _ & Hprice). exact (Hr Hprice).
Defined.

(** ** The seeding script: retries *)

Lemma retry_loop_spec {A} (func : nat → except A) (k n : nat) (last_exc : option exn) :
  match retry_loop func k n last_exc with
  | inl a =>
      ∃ i, (k ≤ i < k + n)%nat ∧ func i = Ok a
           ∧ ∀ j, (k ≤ j < i)%nat → ∃ e, func j = Err e
  | inr last =>
      (∀ j, (k ≤ j < k + n)%nat → ∃ e, func j = Err e)
      ∧ match n with
        | O => last = last_exc
        | S n' => ∃ e, func (k + n')%nat = Err e ∧ last = Some e
        end
  end.
Proof.
  revert k last_exc. induction n as [|n IH]; intros k last_exc; simpl.
  - split; [intros j Hj; lia | reflexivity].
  - destruct (func k) as [a|exc] eqn:Hk.
    + exists k. split; [lia|]. split; [exact Hk|]. intros j Hj. lia.
    + specialize (IH (S k) (Some exc)).
      destruct (retry_loop func (S k) n (Some exc)) as [a|last].
      * destruct IH as (i & Hi & Hok & Hbefore).
        exists i. split; [lia|]. split; [exact Hok|].
        intros j Hj. destruct (decide (j = k)) as [-> | Hne]; [by exists exc|].
        apply Hbefore. lia.
      * destruct IH as [Hall Hlast]. split.
        -- intros j Hj. destruct (decide (j = k)) as [-> | Hne]; [by exists exc|].
           apply Hall. lia.
        -- destruct n as [|n'].
           ++ exists exc. split; [by rewrite Nat.add_0_r | exact Hlast].
           ++ destruct Hlast as (e & He & ->). exists e. split; [|reflexivity].
              by replace (k + S n')%nat with (S k + n')%nat by lia.
Qed.

(** X24. [call_with_retries] makes at most [attempts] calls and returns the
    value of the first call that succeeds.  When every one of the [attempts]
    calls raises it re-raises the exception of the last call, not of the
    first; the [RuntimeError] of its last line is raised exactly when
    [attempts] is zero or negative, and then the callable is never called. *)
Theorem call_with_retries_first_success {A}
    (func : nat → except A) (attempts : Z) :
  match call_with_retries func attempts with
  | Done a =>
      ∃ i, (Z.of_nat i < attempts)%Z ∧ func i = Ok a
           ∧ ∀ j, (j < i)%nat → ∃ e, func j = Err e
  | Failed (CallError e) =>
      (0 < attempts)%Z
      ∧ func (Z.to_nat attempts - 1)%nat = Err e
      ∧ ∀ j, (Z.of_nat j < attempts)%Z → ∃ e', func j = Err e'
  | Failed (RuntimeError message) =>
      (attempts ≤ 0)%Z ∧ message = "Retry operation failed unexpectedly"
  end.
Proof.
  unfold call_with_retries.
  pose proof (retry_loop_spec func 0 (Z.to_nat attempts) None) as H.
  destruct (retry_loop func 0 (Z.to_nat attempts) None) as [a|[last|]].
  - destruct H as (i & Hi & Hok & Hbefore).
    exists i. split; [lia|]. split; [exact Hok|].
    intros j Hj. apply Hbefore. lia.
  - destruct H as [Hall Hlast].
    destruct (Z.to_nat attempts) as [|n] eqn:Hn; [discriminate|].
    destruct Hlast as (e & He & [= ->]).
    split; [lia|]. split.
    + by replace (S n - 1)%nat with (0 + n)%nat by lia.
    + intros j Hj. apply Hall. lia.
  - destruct H as [_ Hlast].
    destruct (Z.to_nat attempts) as [|n] eqn:Hn.
    + split; [lia | reflexivity].
    + destruct Hlast as (e & _ & [=]).
Qed.

Lemma wait_loop_spec (ready : nat → except bool) (k n : nat) :
  if wait_loop ready k n
  then ∃ i, (k ≤ i < k + n)%nat ∧ ready i = Ok true
            ∧ ∀ j, (k ≤ j < i)%nat → ready j ≠ Ok true
  else ∀ j, (k ≤ j < k + n)%nat → ready j ≠ Ok true.
Proof.
  revert k. induction n as [|n IH]; intros k; simpl.
  - intros j Hj. lia.
  - assert (Hnot : ready k ≠ Ok true →
      if wait_loop ready (S k) n
      then ∃ i, (k ≤ i < k + S n)%nat ∧ ready i = Ok true
                ∧ ∀ j, (k ≤ j < i)%nat → ready j ≠ Ok true
      else ∀ j, (k ≤ j < k + S n)%nat → ready j ≠ Ok true).
    { intros Hk. specialize (IH (S k)).
      destruct (wait_loop ready (S k) n).
      - destruct IH as (i & Hi & Hok & Hbefore).
        exists i. split; [lia|]. split; [exact Hok|].
        intros j Hj. destruct (decide (j = k)) as [-> | Hne]; [exact Hk|].
        apply Hbefore. lia.
      - intros j Hj. destruct (decide (j = k)) as [-> | Hne]; [exact Hk|].
        apply IH. lia. }
    destruct (ready k) as [[|]|e] eqn:Hk.
    + exists k. split; [lia|]. split; [exact Hk|]. intros j Hj. lia.
    + by apply Hnot.
    + by apply Hnot.
Qed.

(** X25. The two waiting loops of the seeding script never let an exception
    of the engine through.  [wait_for_elasticsearch] returns exactly when
    one of its [attempts] pings answers [True], [wait_for_query_ready]
    exactly when at one attempt both the health call and the info call
    succeed; otherwise each raises its own [RuntimeError], also when
    [attempts] is zero or negative. *)
Theorem wait_loops_return_or_time_out
    (ping : nat → except bool) (health info : nat → except unit) (attempts : Z) :
  match wait_for_elasticsearch ping attempts with
  | Done _ =>
      ∃ i, (Z.of_nat i < attempts)%Z ∧ ping i = Ok true
           ∧ ∀ j, (j < i)%nat → ping j ≠ Ok true
  | Failed e =>
      e = RuntimeError "Elasticsearch did not become available in time"
      ∧ ∀ j, (Z.of_nat j < attempts)%Z → ping j ≠ Ok true
  end
  ∧ match wait_for_query_ready health info attempts with
    | Done _ =>
        ∃ i, (Z.of_nat i < attempts)%Z ∧ health i = Ok tt ∧ info i = Ok tt
             ∧ ∀ j, (j < i)%nat → ¬ (health j = Ok tt ∧ info j = Ok tt)
    | Failed e =>
        e = RuntimeError "Elasticsearch query APIs did not become ready in time"
        ∧ ∀ j, (Z.of_nat j < attempts)%Z → ¬ (health j = Ok tt ∧ info j = Ok tt)
    end.
Proof.
  assert (Hready : ∀ k, (_ ← health k; _ ← info k; mret true) = Ok true
                        ↔ health k = Ok tt ∧ info k = Ok tt).
  { intros k. destruct (health k) as [[]|e], (info k) as [[]|e']; simpl;
      split; try discriminate; try tauto; by intros [? ?]. }
  split.
  - unfold wait_for_elasticsearch.
    pose proof (wait_loop_spec ping 0 (Z.to_nat attempts)) as H.
    destruct (wait_loop ping 0 (Z.to_nat attempts)).
    + destruct H as (i & Hi & Hok & Hbefore).
      exists i. split; [lia|]. split; [exact Hok|].
      intros j Hj. apply Hbefore. lia.
    + split; [reflexivity|]. intros j Hj. apply H. lia.
  - unfold wait_for_query_ready.
    pose proof (wait_loop_spec (λ k, _ ← health k; _ ← info k; mret true) 0
                  (Z.to_nat attempts)) as H.
    destruct (wait_loop _ 0 (Z.to_nat attempts)).
    + destruct H as (i & Hi & Hok & Hbefore).
      apply Hready in Hok as [Hh Hi'].
      exists i. split; [lia|]. split; [exact Hh|]. split; [exact Hi'|].
      intros j Hj Hboth. apply (Hbefore j); [lia|]. by apply Hready.
    + split; [reflexivity|]. intros j Hj Hboth.
      apply (H j); [lia|]. by apply Hready.
Qed.
